(** * Siema carousel: position engine, gesture handlers and change registry

    A shallow embedding of [CachedEventRegistry] and [Siema]
    (src/cached_event_registry.js).

    Modelling conventions.
    - JavaScript numbers that carry pixel values are [jsnum]: an exact
      rational, the two infinities, or NaN.  Rounding of binary64, overflow
      of finite operands to an infinity and the sign of zero are not
      modelled; everything the source does with [undefined], [NaN] and
      [Infinity] is.
    - Slide indices are [Z] (the documented parameter type is an item index).
    - Items and subscriber callbacks are opaque and compared by identity; they
      are natural-number identities here.
    - The render surface and the subscribers are collaborators: every call the
      source makes on them is appended to a trace of [effect]s, and what the
      source reads back from the layout comes from a [Surface] record.
    - The methods are given twice where they publish to subscribers: first
      for subscribers that return, then, in module [Full], with the
      subscribers' behaviour (return or throw) as a parameter.  The two
      agree when no subscriber throws ([run_call_quiet]).
    - Methods are computations in a state-and-exception monad [M]; a throw
      keeps the state reached at the point of the throw.
    - Registration of the native listeners is reduced to [dispatch], which
      runs a pointer handler only on a draggable carousel; [destroy] is not
      modelled. *)

From Stdlib Require Import String Bool ZArith QArith Qcanon List Lia Lqa.
Import ListNotations.

Local Open Scope string_scope.
Local Open Scope list_scope.
Local Open Scope Z_scope.

(* ------------------------------------------------------------------ *)
(** ** JavaScript numbers *)

Module JS.

Inductive jsnum : Type :=
| Num (q : Qc)
| PInf
| NInf
| NaN.

Definition Infinity : jsnum := PInf.

Definition zero : jsnum := Num 0%Qc.

Definition of_Z (z : Z) : jsnum := Num (Q2Qc (inject_Z z)).

Definition Qcltb (x y : Qc) : bool :=
  match (x ?= y)%Qc with Lt => true | _ => false end.

Definition Qceqb (x y : Qc) : bool :=
  match (x ?= y)%Qc with Eq => true | _ => false end.

(** [ToNumber] on the result of an array read: [undefined] becomes NaN. *)
Definition ToNumber (v : option jsnum) : jsnum :=
  match v with
  | Some x => x
  | None => NaN
  end.

(** Unary minus. *)
Definition neg (x : jsnum) : jsnum :=
  match x with
  | Num q => Num (- q)%Qc
  | PInf => NInf
  | NInf => PInf
  | NaN => NaN
  end.

(** [x + y], on exact values: a sum of two finite numbers is finite (no
    overflow, no rounding). *)
Definition add (x y : jsnum) : jsnum :=
  match x, y with
  | NaN, _ | _, NaN => NaN
  | Num a, Num b => Num (a + b)%Qc
  | PInf, NInf | NInf, PInf => NaN
  | PInf, _ | _, PInf => PInf
  | NInf, _ | _, NInf => NInf
  end.

(** [x - y]. *)
Definition sub (x y : jsnum) : jsnum := add x (neg y).

(** [x / y]; a zero divisor gives an infinity of the sign of [x], or NaN
    for [0 / 0]. *)
Definition div (x y : jsnum) : jsnum :=
  match x, y with
  | NaN, _ | _, NaN => NaN
  | Num a, Num b =>
      if Qceqb b 0 then
        (if Qceqb a 0 then NaN else if Qcltb a 0 then NInf else PInf)
      else Num (a / b)%Qc
  | Num _, (PInf | NInf) => zero
  | (PInf | NInf), (PInf | NInf) => NaN
  | PInf, Num b => if Qcltb b 0 then NInf else PInf
  | NInf, Num b => if Qcltb b 0 then PInf else NInf
  end.

(** [x < y]; false as soon as one side is NaN. *)
Definition ltb (x y : jsnum) : bool :=
  match x, y with
  | NaN, _ | _, NaN => false
  | Num a, Num b => Qcltb a b
  | NInf, NInf => false
  | NInf, _ => true
  | _, PInf => match x with PInf => false | _ => true end
  | PInf, _ => false
  | Num _, NInf => false
  end.

(** [x === y] on numbers: NaN is not equal to itself. *)
Definition strict_eqb (x y : jsnum) : bool :=
  match x, y with
  | Num a, Num b => Qceqb a b
  | PInf, PInf => true
  | NInf, NInf => true
  | _, _ => false
  end.

(** Truthiness of a number: false for 0 and NaN. *)
Definition truthy (x : jsnum) : bool :=
  match x with
  | Num q => negb (Qceqb q 0)
  | NaN => false
  | _ => true
  end.

(** [Math.abs]. *)
Definition Math_abs (x : jsnum) : jsnum :=
  match x with
  | Num q => if Qcltb q 0 then Num (- q)%Qc else Num q
  | PInf | NInf => PInf
  | NaN => NaN
  end.

(** [Math.min] and [Math.max] of two arguments: NaN if either is NaN. *)
Definition num_min (x y : jsnum) : jsnum :=
  match x, y with
  | NaN, _ | _, NaN => NaN
  | _, _ => if ltb y x then y else x
  end.

Definition num_max (x y : jsnum) : jsnum :=
  match x, y with
  | NaN, _ | _, NaN => NaN
  | _, _ => if ltb x y then y else x
  end.

(** The values [Math.min] / [Math.max] are applied to in the source: pixel
    offsets and integer indices. *)
Class MathOrd (A : Type) : Type := {
  Math_min : A -> A -> A;
  Math_max : A -> A -> A
}.

#[export] Instance MathOrd_jsnum : MathOrd jsnum :=
  {| Math_min := num_min; Math_max := num_max |}.

#[export] Instance MathOrd_Z : MathOrd Z :=
  {| Math_min := Z.min; Math_max := Z.max |}.

(** *** Arrays *)

(** [array[i]] for an integer [i]: [undefined] out of range. *)
Definition get {A : Type} (array : list A) (i : Z) : option A :=
  if i <? 0 then None else nth_error array (Z.to_nat i).

(** The index a relative position denotes in [slice] and [splice]:
    negative positions count from the end, and the result is kept inside
    [0, length]. *)
Definition relative_index (len : Z) (i : Z) : Z :=
  if i <? 0 then Z.max (len + i) 0 else Z.min i len.

(** [array.slice(0, end)]. *)
Definition slice0 {A : Type} (array : list A) (end_ : Z) : list A :=
  firstn (Z.to_nat (relative_index (Z.of_nat (length array)) end_)) array.

(** [array.splice(start, 1)]: the array after the call. *)
Definition splice_remove1 {A : Type} (array : list A) (start : Z) : list A :=
  let k := Z.to_nat (relative_index (Z.of_nat (length array)) start) in
  firstn k array ++ skipn (S k) array.

(** [array.splice(start, 0, item)]: the array after the call. *)
Definition splice_insert {A : Type} (array : list A) (start : Z) (item : A)
  : list A :=
  let k := Z.to_nat (relative_index (Z.of_nat (length array)) start) in
  firstn k array ++ item :: skipn k array.

(** [array.indexOf(x)] under an equality test [eqb]: first match, or -1. *)
Fixpoint indexOf_from {A : Type} (eqb : A -> A -> bool) (x : A)
  (array : list A) (i : Z) : Z :=
  match array with
  | [] => -1
  | y :: rest => if eqb y x then i else indexOf_from eqb x rest (i + 1)
  end.

Definition indexOf {A : Type} (eqb : A -> A -> bool) (array : list A) (x : A)
  : Z :=
  indexOf_from eqb x array 0.

(** [array.reduce(f)] without an initial value: [None] stands for the
    TypeError raised on an empty array. *)
Definition reduce1 {A : Type} (f : A -> A -> A) (array : list A) : option A :=
  match array with
  | [] => None
  | x :: rest => Some (fold_left f rest x)
  end.

(** [array.reduce(f, init)]. *)
Definition reduce {A B : Type} (f : B -> A -> B) (init : B) (array : list A)
  : B :=
  fold_left f array init.

(** The indices [0 .. length - 1] an array iteration visits. *)
Definition indices {A : Type} (array : list A) : list Z :=
  map Z.of_nat (seq 0 (length array)).

(** *** The built-in [Set] *)

(** Own methods of [Set.prototype]. *)
Inductive SetMethod : Type :=
| Set_add | Set_clear | Set_delete | Set_entries
| Set_forEach | Set_has | Set_keys | Set_values.

(** Property lookup of a method name on a [Set] instance: [None] is
    [undefined]. *)
Definition Set_prototype (name : string) : option SetMethod :=
  if String.eqb name "add" then Some Set_add
  else if String.eqb name "clear" then Some Set_clear
  else if String.eqb name "delete" then Some Set_delete
  else if String.eqb name "entries" then Some Set_entries
  else if String.eqb name "forEach" then Some Set_forEach
  else if String.eqb name "has" then Some Set_has
  else if String.eqb name "keys" then Some Set_keys
  else if String.eqb name "values" then Some Set_values
  else None.

(** A [Set] of identities keeps insertion order and holds no duplicate. *)
Definition Set_has_ (s : list nat) (x : nat) : bool :=
  existsb (Nat.eqb x) s.

Definition Set_add_ (s : list nat) (x : nat) : list nat :=
  if Set_has_ s x then s else s ++ [x].

Definition Set_delete_ (s : list nat) (x : nat) : list nat :=
  filter (fun y => negb (Nat.eqb x y)) s.

End JS.

Import JS.

(* ------------------------------------------------------------------ *)
(** ** State, effects and the method monad *)

(** Identity of a visual item (a DOM element handed to the carousel). *)
Definition Item : Type := nat.

(** Identity of a subscriber callback. *)
Definition Callback : Type := nat.

(** The cursor affordances the handlers set. *)
Inductive cursor : Type :=
| GRAB_CURSOR
| GRABBING_CURSOR.

(** Calls made on the collaborators, in program order. *)
Inductive effect : Type :=
| Deliver (callback : Callback) (args : list Z)
| ApplyTransform (x : jsnum)
| ApplyTransition (duration : Z) (easing : string)
| ApplyCursor (c : cursor)
| RebuildFrame (slides : list Item).

(** What the layout reports when measured ([getBoundingClientRect().width]
    of the selector, of the frame holding the given slides, of one slide). *)
Record Surface : Type := {
  containerWidth : Qc;
  frameWidth : list Item -> Qc;
  slideWidth : Item -> Qc
}.

Record Config : Type := {
  duration : Z;
  easing : string;
  stickToEdges : bool;
  draggable : bool
}.

Record CachedEventRegistry : Type := {
  _listeners : list Callback;
  _lastArgs : list Z
}.

Record Drag : Type := {
  startingTranslation : option jsnum;
  startX : jsnum;
  endX : jsnum;
  startY : jsnum;
  letItGo : option bool
}.

Record Siema : Type := {
  _config : Config;
  _eventRegistry : CachedEventRegistry;
  _innerElements : list Item;
  _innerSlides : list Item;
  _currentSlide : Z;
  _currentTranslation : jsnum;
  _pointerDown : bool;
  _drag : Drag;
  surface : Surface;
  trace : list effect
}.

Inductive exn : Type :=
| Error (message : string)
| TypeError (message : string).

Inductive outcome (A : Type) : Type :=
| Return (a : A)
| Throw (e : exn).

Arguments Return {A} a.
Arguments Throw {A} e.

Definition M (A : Type) : Type := Siema -> outcome A * Siema.

Definition ret {A : Type} (a : A) : M A := fun s => (Return a, s).

Definition bind {A B : Type} (m : M A) (k : A -> M B) : M B :=
  fun s =>
    match m s with
    | (Return a, s') => k a s'
    | (Throw e, s') => (Throw e, s')
    end.

Definition throw {A : Type} (e : exn) : M A := fun s => (Throw e, s).

Definition gets {A : Type} (f : Siema -> A) : M A := fun s => (Return (f s), s).

Definition modify (f : Siema -> Siema) : M unit := fun s => (Return tt, f s).

Declare Scope js_scope.
Delimit Scope js_scope with js.

Notation "x <- m ;; k" := (bind m (fun x => k))
  (at level 61, m at next level, right associativity) : js_scope.
Notation "m ;; k" := (bind m (fun _ => k))
  (at level 61, right associativity) : js_scope.

Local Open Scope js_scope.

Definition when (b : bool) (m : M unit) : M unit :=
  if b then m else ret tt.

(** [array.map((_, i) => f(i))] for a callback that runs in [M]. *)
Fixpoint mapM {A B : Type} (f : A -> M B) (l : list A) : M (list B) :=
  match l with
  | [] => ret []
  | x :: rest =>
      y <- f x ;;
      ys <- mapM f rest ;;
      ret (y :: ys)
  end.

(** Field assignments. *)
Definition set_eventRegistry (r : CachedEventRegistry) (s : Siema) : Siema :=
  {| _config := _config s; _eventRegistry := r;
     _innerElements := _innerElements s; _innerSlides := _innerSlides s;
     _currentSlide := _currentSlide s;
     _currentTranslation := _currentTranslation s;
     _pointerDown := _pointerDown s; _drag := _drag s;
     surface := surface s; trace := trace s |}.

Definition set_innerElements (l : list Item) (s : Siema) : Siema :=
  {| _config := _config s; _eventRegistry := _eventRegistry s;
     _innerElements := l; _innerSlides := _innerSlides s;
     _currentSlide := _currentSlide s;
     _currentTranslation := _currentTranslation s;
     _pointerDown := _pointerDown s; _drag := _drag s;
     surface := surface s; trace := trace s |}.

Definition set_innerSlides (l : list Item) (s : Siema) : Siema :=
  {| _config := _config s; _eventRegistry := _eventRegistry s;
     _innerElements := _innerElements s; _innerSlides := l;
     _currentSlide := _currentSlide s;
     _currentTranslation := _currentTranslation s;
     _pointerDown := _pointerDown s; _drag := _drag s;
     surface := surface s; trace := trace s |}.

Definition set_currentSlide (i : Z) (s : Siema) : Siema :=
  {| _config := _config s; _eventRegistry := _eventRegistry s;
     _innerElements := _innerElements s; _innerSlides := _innerSlides s;
     _currentSlide := i;
     _currentTranslation := _currentTranslation s;
     _pointerDown := _pointerDown s; _drag := _drag s;
     surface := surface s; trace := trace s |}.

Definition set_currentTranslation (x : jsnum) (s : Siema) : Siema :=
  {| _config := _config s; _eventRegistry := _eventRegistry s;
     _innerElements := _innerElements s; _innerSlides := _innerSlides s;
     _currentSlide := _currentSlide s;
     _currentTranslation := x;
     _pointerDown := _pointerDown s; _drag := _drag s;
     surface := surface s; trace := trace s |}.

Definition set_pointerDown (b : bool) (s : Siema) : Siema :=
  {| _config := _config s; _eventRegistry := _eventRegistry s;
     _innerElements := _innerElements s; _innerSlides := _innerSlides s;
     _currentSlide := _currentSlide s;
     _currentTranslation := _currentTranslation s;
     _pointerDown := b; _drag := _drag s;
     surface := surface s; trace := trace s |}.

Definition set_drag (d : Drag) (s : Siema) : Siema :=
  {| _config := _config s; _eventRegistry := _eventRegistry s;
     _innerElements := _innerElements s; _innerSlides := _innerSlides s;
     _currentSlide := _currentSlide s;
     _currentTranslation := _currentTranslation s;
     _pointerDown := _pointerDown s; _drag := d;
     surface := surface s; trace := trace s |}.

(** Record calls on the collaborators. *)
Definition emit_all (es : list effect) (s : Siema) : Siema :=
  {| _config := _config s; _eventRegistry := _eventRegistry s;
     _innerElements := _innerElements s; _innerSlides := _innerSlides s;
     _currentSlide := _currentSlide s;
     _currentTranslation := _currentTranslation s;
     _pointerDown := _pointerDown s; _drag := _drag s;
     surface := surface s; trace := trace s ++ es |}.

Definition emit (e : effect) : M unit := modify (emit_all [e]).

(* ------------------------------------------------------------------ *)
(** ** CachedEventRegistry *)

Definition msg_not_a_function : string :=
  "this._listeners.remove is not a function".

Module Registry.

(** [new CachedEventRegistry(...initialArgs)]. *)
Definition new (initialArgs : list Z) : CachedEventRegistry :=
  {| _listeners := []; _lastArgs := initialArgs |}.

(** The closure [() => this._listeners.remove(callback)] returned by
    [listen]: it remembers the callback it was created for. *)
Inductive unsubscribe_handle : Type :=
| Unsubscribe (callback : Callback).

(** [listen(callback)] for a callback that returns: the registry
    afterwards, the deliveries made during the call, and the returned
    closure.  [Full.listen] is the general form. *)
Definition listen (callback : Callback) (r : CachedEventRegistry)
  : CachedEventRegistry * list effect * unsubscribe_handle :=
  let r' := {| _listeners := Set_add_ (_listeners r) callback;
               _lastArgs := _lastArgs r |} in
  let delivered :=
    if (0 <? Z.of_nat (length (_lastArgs r')))
    then [Deliver callback (_lastArgs r')]
    else [] in
  (r', delivered, Unsubscribe callback).

(** [notify(...args)] for listeners that return: the registry afterwards
    and the deliveries made, in the iteration order of the listener set.
    [Full.notify] is the general form, where a listener may throw. *)
Definition notify (args : list Z) (r : CachedEventRegistry)
  : CachedEventRegistry * list effect :=
  let r' := {| _listeners := _listeners r; _lastArgs := args |} in
  (r', map (fun l => Deliver l args) (_listeners r')).

(** Calling a method of the listener set with one argument. *)
Definition Set_call (m : SetMethod) (s : list Callback) (x : Callback)
  : list Callback :=
  match m with
  | Set_add => Set_add_ s x
  | Set_delete => Set_delete_ s x
  | Set_clear => []
  | _ => s
  end.

(** Calling the closure returned by [listen]: it looks up the property
    [remove] on the listener set and calls it. *)
Definition call (h : unsubscribe_handle) (r : CachedEventRegistry)
  : outcome unit * CachedEventRegistry :=
  match h with
  | Unsubscribe callback =>
      match Set_prototype "remove" with
      | Some m =>
          (Return tt,
           {| _listeners := Set_call m (_listeners r) callback;
              _lastArgs := _lastArgs r |})
      | None => (Throw (TypeError msg_not_a_function), r)
      end
  end.

End Registry.

(* ------------------------------------------------------------------ *)
(** ** Siema *)

Definition two : jsnum := of_Z 2.

(** [Siema.clamp(value, min, max)]. *)
Definition clamp {A : Type} `{MathOrd A} (value min max : A) : A :=
  Math_max min (Math_min max value).

(** The callback of the reduction in [Siema.closest]. *)
Definition closer (value prev curr : jsnum) : jsnum :=
  if ltb (Math_abs (sub curr value)) (Math_abs (sub prev value))
  then curr else prev.

(** [Siema.closest(value, array)]; [None] is the TypeError of [reduce] on an
    empty array. *)
Definition closest (value : jsnum) (array : list jsnum) : option jsnum :=
  reduce1 (closer value) array.

(** Settings as passed by the caller: unset fields are absent. *)
Record Options : Type := {
  o_duration : option Z;
  o_easing : option string;
  o_stickToEdges : option bool;
  o_draggable : option bool
}.

Definition or_default {A : Type} (o : option A) (d : A) : A :=
  match o with Some a => a | None => d end.

(** [Siema.mergeSettings(options)]. *)
Definition mergeSettings (options : Options) : Config :=
  {| duration := or_default (o_duration options) 200;
     easing := or_default (o_easing options) "ease-out";
     stickToEdges := or_default (o_stickToEdges options) true;
     draggable := or_default (o_draggable options) true |}.

(** [this._eventRegistry.notify(...args)] on the instance, for subscribers
    that return ([Full.eventRegistry_notify] is the general form). *)
Definition eventRegistry_notify (args : list Z) : M unit :=
  modify (fun s =>
    let '(r, delivered) := Registry.notify args (_eventRegistry s) in
    emit_all delivered (set_eventRegistry r s)).

(** [onChange(callback)]. *)
Definition onChange (callback : Callback) : M Registry.unsubscribe_handle :=
  fun s =>
    let '(r, delivered, h) := Registry.listen callback (_eventRegistry s) in
    (Return h, emit_all delivered (set_eventRegistry r s)).

(** Calling the handle returned by [onChange]. *)
Definition call_handle (h : Registry.unsubscribe_handle) : M unit :=
  fun s =>
    let '(o, r) := Registry.call h (_eventRegistry s) in
    (o, set_eventRegistry r s).

Definition _setTranslation (value : jsnum) : M unit :=
  emit (ApplyTransform value);;
  modify (set_currentTranslation value).

Definition _setTransition (duration : Z) (easing : string) : M unit :=
  emit (ApplyTransition duration easing).

Definition _setCursor (c : cursor) : M unit :=
  emit (ApplyCursor c).

Definition _setCurrentSlide (slide : Z) : M unit :=
  modify (set_currentSlide slide);;
  cs <- gets _currentSlide;;
  eventRegistry_notify [cs].

(** [_resetFrameSlides()]: a new frame is styled and filled with one
    container per element.  A slide container is identified with the element
    it wraps, so the new slide list is the element list mapped one to one. *)
Definition _resetFrameSlides : M unit :=
  cfg <- gets _config;;
  _setTransition (duration cfg) (easing cfg);;
  _setTranslation zero;;
  when (draggable cfg) (_setCursor GRAB_CURSOR);;
  elements <- gets _innerElements;;
  modify (set_innerSlides (map (fun element => element) elements));;
  slides <- gets _innerSlides;;
  emit (RebuildFrame slides).

(** The body of [_calculateTranslation] on the values it has measured. *)
Definition calculateTranslation_of (containerWidth frameWidth : jsnum)
  (widths : list jsnum) (index : Z) (stickToEdges : bool) : jsnum :=
  let previousWidthSum :=
    reduce (fun sum width => add sum width) zero (slice0 widths index) in
  let translation :=
    sub (sub (div containerWidth two) previousWidthSum)
        (div (ToNumber (get widths index)) two) in
  let maxClamp := if stickToEdges then zero else Infinity in
  let minClamp :=
    if stickToEdges then Math_min zero (sub containerWidth frameWidth)
    else neg Infinity in
  clamp translation minClamp maxClamp.

(** The widths measured on the current slides. *)
Definition measured_widths (s : Siema) : list jsnum :=
  map (fun el => Num (slideWidth (surface s) el)) (_innerSlides s).

(** What [_calculateTranslation(index, stickToEdges)] returns in state [s]:
    the body applied to the widths measured on the layout of [s]. *)
Definition translation_for (s : Siema) (index : Z) (stickToEdges : bool)
  : jsnum :=
  calculateTranslation_of
    (Num (containerWidth (surface s)))
    (Num (frameWidth (surface s) (_innerSlides s)))
    (measured_widths s) index stickToEdges.

(** [_calculateTranslation(index, stickToEdges)]. *)
Definition _calculateTranslation (index : Z) (stickToEdges : bool) : M jsnum :=
  gets (fun s => translation_for s index stickToEdges).

Definition _slideToIndex (index : Z) : M unit :=
  cfg <- gets _config;;
  translation <- _calculateTranslation index (stickToEdges cfg);;
  _setTranslation translation.

Definition _slideToCurrent : M unit :=
  cs <- gets _currentSlide;;
  _slideToIndex cs.

Definition length_of {A : Type} (l : list A) : Z := Z.of_nat (length l).

(** [goTo(index)]. *)
Definition goTo (index : Z) : M unit :=
  beforeChange <- gets _currentSlide;;
  n <- gets (fun s => length_of (_innerElements s));;
  _setCurrentSlide (clamp index 0 n);;
  cs <- gets _currentSlide;;
  when (negb (beforeChange =? cs)) _slideToCurrent.

(** [moveBy(howManySlides)]. *)
Definition moveBy (howManySlides : Z) : M unit :=
  cs <- gets _currentSlide;;
  n <- gets (fun s => length_of (_innerSlides s));;
  goTo (clamp (cs + howManySlides) 0 n).

(** [prev(howManySlides = 1)] and [next(howManySlides = 1)]. *)
Definition prev (howManySlides : option Z) : M unit :=
  moveBy (- or_default howManySlides 1).

Definition next (howManySlides : option Z) : M unit :=
  moveBy (or_default howManySlides 1).

(** The messages of the errors thrown (their trailing emoji left out). *)
Definition msg_remove : string := "Item to remove doesn't exist".
Definition msg_insert_index : string := "Unable to inset it at this index".
Definition msg_insert_same : string :=
  "The same item in a carousel? Really? Nope".
Definition msg_selector : string := "Something wrong with your selector".
Definition msg_reduce : string :=
  "Reduce of empty array with no initial value".

(** [remove(index)]. *)
Definition remove (index : Z) : M unit :=
  n <- gets (fun s => length_of (_innerElements s));;
  if (index <? 0) || (index >=? n) then throw (Error msg_remove)
  else
    cs <- gets _currentSlide;;
    _setCurrentSlide (if index <=? cs then cs - 1 else cs);;
    modify (fun s => set_innerElements (splice_remove1 (_innerElements s) index) s);;
    _resetFrameSlides.

(** [insert(item, index)]. *)
Definition insert (item : Item) (index : Z) : M unit :=
  n <- gets (fun s => length_of (_innerElements s));;
  if (index <? 0) || (index >? n + 1) then throw (Error msg_insert_index)
  else
    elements <- gets _innerElements;;
    if negb (indexOf Nat.eqb elements item =? -1)
    then throw (Error msg_insert_same)
    else
      cs <- gets _currentSlide;;
      _setCurrentSlide (if index <=? cs then cs + 1 else cs);;
      modify (fun s => set_innerElements (splice_insert (_innerElements s) index item) s);;
      _resetFrameSlides.

Definition prepend (item : Item) : M unit := insert item 0.

Definition append (item : Item) : M unit :=
  n <- gets (fun s => length_of (_innerElements s));;
  insert item (n + 1).

(** The drag record written by [_attachEvents]; it has no
    [startingTranslation] property. *)
Definition initial_drag : Drag :=
  {| startingTranslation := None; startX := zero; endX := zero;
     startY := zero; letItGo := None |}.

Definition _attachEvents : M unit :=
  cfg <- gets _config;;
  when (draggable cfg)
    (modify (set_pointerDown false);; modify (set_drag initial_drag)).

Definition _clearDrag : M unit :=
  modify (set_drag
    {| startingTranslation := Some zero; startX := zero; endX := zero;
       startY := zero; letItGo := None |}).

Definition _updateAfterDrag : M unit :=
  slides <- gets _innerSlides;;
  translations <-
    mapM (fun i => _calculateTranslation i false) (indices slides);;
  current <- gets _currentTranslation;;
  match closest current translations with
  | None => throw (TypeError msg_reduce)
  | Some closestTranslation =>
      _setCurrentSlide (indexOf strict_eqb translations closestTranslation);;
      _slideToCurrent
  end.

Definition _resizeHandler : M unit := _slideToCurrent.

(** Field assignments on the drag record. *)
Definition with_startX (x : jsnum) (d : Drag) : Drag :=
  {| startingTranslation := startingTranslation d; startX := x;
     endX := endX d; startY := startY d; letItGo := letItGo d |}.

Definition with_startY (y : jsnum) (d : Drag) : Drag :=
  {| startingTranslation := startingTranslation d; startX := startX d;
     endX := endX d; startY := y; letItGo := letItGo d |}.

Definition with_endX (x : jsnum) (d : Drag) : Drag :=
  {| startingTranslation := startingTranslation d; startX := startX d;
     endX := x; startY := startY d; letItGo := letItGo d |}.

Definition with_letItGo (b : bool) (d : Drag) : Drag :=
  {| startingTranslation := startingTranslation d; startX := startX d;
     endX := endX d; startY := startY d; letItGo := Some b |}.

Definition with_startingTranslation (t : jsnum) (d : Drag) : Drag :=
  {| startingTranslation := Some t; startX := startX d;
     endX := endX d; startY := startY d; letItGo := letItGo d |}.

Definition update_drag (f : Drag -> Drag) : M unit :=
  modify (fun s => set_drag (f (_drag s)) s).

(** [_touchstartHandler(e)], with [e.touches[0].pageX] and [pageY]. *)
Definition _touchstartHandler (pageX pageY : Qc) : M unit :=
  modify (set_pointerDown true);;
  update_drag (with_startX (Num pageX));;
  update_drag (with_startY (Num pageY)).

Definition _touchendHandler : M unit :=
  modify (set_pointerDown false);;
  d <- gets _drag;;
  when (truthy (endX d)) _updateAfterDrag;;
  cfg <- gets _config;;
  _setTransition (duration cfg) (easing cfg);;
  _clearDrag.

Definition _touchmoveHandler (pageX pageY : Qc) : M unit :=
  d <- gets _drag;;
  when (match letItGo d with None => true | Some _ => false end)
    (update_drag (with_letItGo
       (ltb (Math_abs (sub (startY d) (Num pageY)))
            (Math_abs (sub (startX d) (Num pageX))))));;
  down <- gets _pointerDown;;
  d <- gets _drag;;
  when (down && or_default (letItGo d) false)
    (update_drag (with_endX (Num pageX));;
     cfg <- gets _config;;
     _setTransition 0 (easing cfg);;
     cs <- gets _currentSlide;;
     t <- _calculateTranslation cs (stickToEdges cfg);;
     d <- gets _drag;;
     _setTranslation (sub t (sub (startX d) (endX d)))).

Definition _mousedownHandler (pageX : Qc) : M unit :=
  modify (set_pointerDown true);;
  update_drag (with_startX (Num pageX));;
  t <- gets _currentTranslation;;
  update_drag (with_startingTranslation t);;
  _setCursor GRABBING_CURSOR.

Definition _mouseupHandler : M unit :=
  modify (set_pointerDown false);;
  _setCursor GRAB_CURSOR;;
  cfg <- gets _config;;
  _setTransition (duration cfg) (easing cfg);;
  _updateAfterDrag;;
  _clearDrag.

Definition _mousemoveHandler (pageX : Qc) : M unit :=
  down <- gets _pointerDown;;
  when down
    (update_drag (with_endX (Num pageX));;
     d <- gets _drag;;
     let translation :=
       sub (ToNumber (startingTranslation d)) (sub (startX d) (endX d)) in
     cfg <- gets _config;;
     _setTransition 0 (easing cfg);;
     _setTranslation translation).

Definition _mouseleaveHandler (pageX : Qc) : M unit :=
  down <- gets _pointerDown;;
  when down
    (modify (set_pointerDown false);;
     update_drag (with_endX (Num pageX));;
     _setCursor GRAB_CURSOR;;
     cfg <- gets _config;;
     _setTransition (duration cfg) (easing cfg);;
     _updateAfterDrag;;
     _clearDrag).

(** Events of the host; the pointer handlers are attached only when the
    carousel is draggable ([_attachEvents]). *)
Inductive event : Type :=
| resize
| touchstart (pageX pageY : Qc)
| touchmove (pageX pageY : Qc)
| touchend
| mousedown (pageX : Qc)
| mousemove (pageX : Qc)
| mouseup
| mouseleave (pageX : Qc).

(** The handler bound to each event. *)
Definition handler (e : event) : M unit :=
  match e with
  | resize => _resizeHandler
  | touchstart x y => _touchstartHandler x y
  | touchmove x y => _touchmoveHandler x y
  | touchend => _touchendHandler
  | mousedown x => _mousedownHandler x
  | mousemove x => _mousemoveHandler x
  | mouseup => _mouseupHandler
  | mouseleave x => _mouseleaveHandler x
  end.

Definition dispatch (e : event) : M unit :=
  cfg <- gets _config;;
  match e with
  | resize => handler e
  | _ => when (draggable cfg) (handler e)
  end.

(** The instance at the start of the constructor.  Fields the constructor
    has not yet assigned are read by nothing before their first assignment.
    On an instance that is not draggable the source never assigns
    [_pointerDown] and [_drag]: what these two fields hold here stands for
    nothing in that case, and nothing reads them, the pointer handlers not
    being attached ([dispatch]). *)
Definition blank_instance (options : Options) (children : list Item)
  (surf : Surface) : Siema :=
  {| _config := mergeSettings options;
     _eventRegistry := Registry.new [];
     _innerElements := children;
     _innerSlides := [];
     _currentSlide := 0;
     _currentTranslation := zero;
     _pointerDown := false;
     _drag := initial_drag;
     surface := surf;
     trace := [] |}.

Definition constructor_body : M unit :=
  _resetFrameSlides;;
  _attachEvents;;
  _setCurrentSlide 0;;
  _slideToCurrent.

(** [new Siema(options)] from the point where [this._selector] holds [null]
    or an element.  [selector] is that value ([None] for [null], an element
    given by its children); [surf] is the layout the instance will measure.
    [new_Siema] below starts from the selector setting itself. *)
Definition constructor (options : Options) (selector : option (list Item))
  (surf : Surface) : outcome Siema :=
  match selector with
  | None => Throw (Error msg_selector)
  | Some children =>
      match constructor_body (blank_instance options children surf) with
      | (Return _, s) => Return s
      | (Throw e, _) => Throw e
      end
  end.

(** State reached and result of a computation. *)
Definition exec {A : Type} (m : M A) (s : Siema) : Siema := snd (m s).
Definition result {A : Type} (m : M A) (s : Siema) : outcome A := fst (m s).

(* ------------------------------------------------------------------ *)
(** ** Reference definitions and sample carousels *)

Section Reference.

Local Open Scope Qc_scope.

(** The offset in the words of the specification. *)

(** Sum of the widths of the items before position [k]. *)
Fixpoint sum_before (ws : list Qc) (k : nat) {struct k} : Qc :=
  match k, ws with
  | S k', w :: rest => w + sum_before rest k'
  | _, _ => 0
  end.

Definition half (q : Qc) : Qc := q / Q2Qc (inject_Z 2).

(** [containerWidth/2 - prefixSum - itemWidths[index]/2]. *)
Definition centred_offset (cw : Qc) (ws : list Qc) (k : nat) : Qc :=
  half cw - sum_before ws k - half (nth k ws 0).

Definition Qc_min (a b : Qc) : Qc := if Qcltb b a then b else a.

(** The point of the interval [[lo, hi]] nearest to [t]. *)
Definition clamp_into (lo hi t : Qc) : Qc :=
  if Qcltb t lo then lo else if Qcltb hi t then hi else t.

End Reference.

(** A sequence of [goTo] calls. *)
Fixpoint goTo_all (calls : list Z) : M unit :=
  match calls with
  | [] => ret tt
  | index :: rest => goTo index;; goTo_all rest
  end.

(** The events that release a drag and run the nearest-slide resolution:
    mouse-up, mouse-leave while the pointer is down, touch-end after a
    recorded horizontal move. *)
Definition triggers_resolution (e : event) (s : Siema) : bool :=
  match e with
  | mouseup => true
  | mouseleave _ => _pointerDown s
  | touchend => truthy (endX (_drag s))
  | _ => false
  end.

Definition itemCount (s : Siema) : Z := length_of (_innerElements s).

(** The unclamped offsets of all slides, as [_updateAfterDrag] collects
    them. *)
Definition candidate_offsets (s : Siema) : list jsnum :=
  map (fun i => translation_for s i false) (indices (_innerSlides s)).

(** The notifications a trace contains: who received which payload. *)
Definition delivered (tr : list effect) : list (Callback * list Z) :=
  flat_map (fun e =>
    match e with
    | Deliver callback args => [(callback, args)]
    | _ => []
    end) tr.

(** The deliveries one publication of [args] makes, in subscription order. *)
Definition deliveries (args : list Z) (s : Siema) : list effect :=
  map (fun l => Deliver l args) (_listeners (_eventRegistry s)).

Definition no_options : Options :=
  {| o_duration := None; o_easing := None;
     o_stickToEdges := None; o_draggable := None |}.

(** A layout where every slide is [w] wide, the frame is as wide as its
    slides together and the container is [cw] wide. *)
Definition uniform_surface (cw w : Z) : Surface :=
  {| containerWidth := Q2Qc (inject_Z cw);
     frameWidth := fun slides =>
       Q2Qc (inject_Z (w * Z.of_nat (length slides)));
     slideWidth := fun _ => Q2Qc (inject_Z w) |}.

(** Four items of width 50 in a container of width 200, default settings. *)
Definition carousel4 : Siema :=
  exec constructor_body
    (blank_instance no_options [1; 2; 3; 4]%nat (uniform_surface 200 50)).

(** A carousel constructed on a selector without children. *)
Definition carousel0 : Siema :=
  exec constructor_body
    (blank_instance no_options [] (uniform_surface 200 50)).

(** The same carousel with one subscriber. *)
Definition carousel4_subscribed : Siema := exec (onChange 7%nat) carousel4.

(* ------------------------------------------------------------------ *)
(** ** Use of the carousel over time *)

(** The layout changes under the instance (a window resize, new styles). *)
Definition set_surface (surf : Surface) (s : Siema) : Siema :=
  {| _config := _config s; _eventRegistry := _eventRegistry s;
     _innerElements := _innerElements s; _innerSlides := _innerSlides s;
     _currentSlide := _currentSlide s;
     _currentTranslation := _currentTranslation s;
     _pointerDown := _pointerDown s; _drag := _drag s;
     surface := surf; trace := trace s |}.

(** What a user of an instance can do with it: call a public method, or
    cause an event on the page. *)
Inductive call : Type :=
| call_goTo (index : Z)
| call_moveBy (howManySlides : Z)
| call_next (howManySlides : option Z)
| call_prev (howManySlides : option Z)
| call_insert (item : Item) (index : Z)
| call_remove (index : Z)
| call_prepend (item : Item)
| call_append (item : Item)
| call_onChange (callback : Callback)
| call_event (e : event).

Definition run_call (c : call) : M unit :=
  match c with
  | call_goTo index => goTo index
  | call_moveBy k => moveBy k
  | call_next k => next k
  | call_prev k => prev k
  | call_insert item index => insert item index
  | call_remove index => remove index
  | call_prepend item => prepend item
  | call_append item => append item
  | call_onChange callback => _ <- onChange callback;; ret tt
  | call_event e => dispatch e
  end.

(** The states an instance goes through: the one the constructor returns,
    then the state after each call or event (the state at the throw when it
    throws) and after each change of layout. *)
Inductive reachable : Siema -> Prop :=
| reachable_new (options : Options) (children : list Item) (surf : Surface)
    (s : Siema) :
    constructor options (Some children) surf = Return s -> reachable s
| reachable_call (s : Siema) (c : call) :
    reachable s -> reachable (exec (run_call c) s)
| reachable_layout (s : Siema) (surf : Surface) :
    reachable s -> reachable (set_surface surf s).

(** The slide list mirrors the element list, the cached payload is the
    current index, and the current index is between -1 and the item count. *)
Definition consistent (s : Siema) : Prop :=
  _innerSlides s = _innerElements s /\
  _lastArgs (_eventRegistry s) = [_currentSlide s] /\
  -1 <= _currentSlide s <= itemCount s.

(** A computation that keeps [consistent], whether it returns or throws. *)
Definition steady {A : Type} (m : M A) : Prop :=
  forall s : Siema, consistent s -> consistent (exec m s).

(** A registry after a sequence of [listen] calls. *)
Fixpoint listen_all (callbacks : list Callback) (r : CachedEventRegistry)
  : CachedEventRegistry :=
  match callbacks with
  | [] => r
  | callback :: rest =>
      listen_all rest (fst (fst (Registry.listen callback r)))
  end.

Section Distance.

Local Open Scope Qc_scope.

(** Absolute value and distance on exact rationals. *)
Definition Qc_abs (q : Qc) : Qc := if Qcltb q 0 then - q else q.

Definition distance (a b : Qc) : Qc := Qc_abs (a - b).

End Distance.

(** The events that end a gesture: touch-end, mouse-up, and mouse-leave
    while the pointer is down. *)
Definition ends_gesture (e : event) (s : Siema) : bool :=
  match e with
  | touchend | mouseup => true
  | mouseleave _ => _pointerDown s
  | _ => false
  end.

(** The state a releasing handler leaves the drag record in. *)
Definition neutral_drag : Drag :=
  {| startingTranslation := Some zero; startX := zero; endX := zero;
     startY := zero; letItGo := None |}.

(* ------------------------------------------------------------------ *)
(** ** Subscribers that may throw *)

(** The methods above are the methods of an instance whose subscribers
    return.  In the source a subscriber is called as [l(...args)] and may
    throw: the exception leaves [forEach], [notify] and every method that
    was publishing.  Module [Full] gives the registry and the methods that
    publish with the subscribers' behaviour as a parameter; everything that
    does not publish is shared with the definitions above.  A subscriber that
    calls back into the instance is outside the model. *)

Definition msg_subscriber : string := "subscriber failed".

Module Full.

Section Subscribers.

(** What calling a subscriber with a payload does: [None] when the call
    returns, [Some e] when it throws [e]. *)
Variable behaviour : Callback -> list Z -> option exn.

(** [this._listeners.forEach(l => l(...args))]: the calls made, in order,
    up to and including the first one that throws, and its exception. *)
Fixpoint forEach_call (args : list Z) (listeners : list Callback)
  : list effect * option exn :=
  match listeners with
  | [] => ([], None)
  | l :: rest =>
      match behaviour l args with
      | Some e => ([Deliver l args], Some e)
      | None =>
          let '(calls, thrown) := forEach_call args rest in
          (Deliver l args :: calls, thrown)
      end
  end.

(** [notify(...args)]: the registry afterwards, the calls made, and the
    exception that ended the iteration, if any. *)
Definition notify (args : list Z) (r : CachedEventRegistry)
  : CachedEventRegistry * list effect * option exn :=
  let r' := {| _listeners := _listeners r; _lastArgs := args |} in
  let '(calls, thrown) := forEach_call args (_listeners r') in
  (r', calls, thrown).

(** [listen(callback)]: the callback is added first; the replay may then
    throw, in which case no handle is returned. *)
Definition listen (callback : Callback) (r : CachedEventRegistry)
  : CachedEventRegistry * list effect * outcome Registry.unsubscribe_handle :=
  let r' := {| _listeners := Set_add_ (_listeners r) callback;
               _lastArgs := _lastArgs r |} in
  if (0 <? Z.of_nat (length (_lastArgs r')))
  then
    match behaviour callback (_lastArgs r') with
    | Some e => (r', [Deliver callback (_lastArgs r')], Throw e)
    | None =>
        (r', [Deliver callback (_lastArgs r')],
         Return (Registry.Unsubscribe callback))
    end
  else (r', [], Return (Registry.Unsubscribe callback)).

Definition eventRegistry_notify (args : list Z) : M unit :=
  fun s =>
    let '(r, calls, thrown) := notify args (_eventRegistry s) in
    (match thrown with Some e => Throw e | None => Return tt end,
     emit_all calls (set_eventRegistry r s)).

Definition onChange (callback : Callback) : M Registry.unsubscribe_handle :=
  fun s =>
    let '(r, calls, o) := listen callback (_eventRegistry s) in
    (o, emit_all calls (set_eventRegistry r s)).

Definition _setCurrentSlide (slide : Z) : M unit :=
  modify (set_currentSlide slide);;
  cs <- gets _currentSlide;;
  eventRegistry_notify [cs].

Definition goTo (index : Z) : M unit :=
  beforeChange <- gets _currentSlide;;
  n <- gets (fun s => length_of (_innerElements s));;
  _setCurrentSlide (clamp index 0 n);;
  cs <- gets _currentSlide;;
  when (negb (beforeChange =? cs)) _slideToCurrent.

Definition moveBy (howManySlides : Z) : M unit :=
  cs <- gets _currentSlide;;
  n <- gets (fun s => length_of (_innerSlides s));;
  goTo (clamp (cs + howManySlides) 0 n).

Definition prev (howManySlides : option Z) : M unit :=
  moveBy (- or_default howManySlides 1).

Definition next (howManySlides : option Z) : M unit :=
  moveBy (or_default howManySlides 1).

Definition remove (index : Z) : M unit :=
  n <- gets (fun s => length_of (_innerElements s));;
  if (index <? 0) || (index >=? n) then throw (Error msg_remove)
  else
    cs <- gets _currentSlide;;
    _setCurrentSlide (if index <=? cs then cs - 1 else cs);;
    modify (fun s => set_innerElements (splice_remove1 (_innerElements s) index) s);;
    _resetFrameSlides.

Definition insert (item : Item) (index : Z) : M unit :=
  n <- gets (fun s => length_of (_innerElements s));;
  if (index <? 0) || (index >? n + 1) then throw (Error msg_insert_index)
  else
    elements <- gets _innerElements;;
    if negb (indexOf Nat.eqb elements item =? -1)
    then throw (Error msg_insert_same)
    else
      cs <- gets _currentSlide;;
      _setCurrentSlide (if index <=? cs then cs + 1 else cs);;
      modify (fun s => set_innerElements (splice_insert (_innerElements s) index item) s);;
      _resetFrameSlides.

Definition prepend (item : Item) : M unit := insert item 0.

Definition append (item : Item) : M unit :=
  n <- gets (fun s => length_of (_innerElements s));;
  insert item (n + 1).

Definition _updateAfterDrag : M unit :=
  slides <- gets _innerSlides;;
  translations <-
    mapM (fun i => _calculateTranslation i false) (indices slides);;
  current <- gets _currentTranslation;;
  match closest current translations with
  | None => throw (TypeError msg_reduce)
  | Some closestTranslation =>
      _setCurrentSlide (indexOf strict_eqb translations closestTranslation);;
      _slideToCurrent
  end.

Definition _touchendHandler : M unit :=
  modify (set_pointerDown false);;
  d <- gets _drag;;
  when (truthy (endX d)) _updateAfterDrag;;
  cfg <- gets _config;;
  _setTransition (duration cfg) (easing cfg);;
  _clearDrag.

Definition _mouseupHandler : M unit :=
  modify (set_pointerDown false);;
  _setCursor GRAB_CURSOR;;
  cfg <- gets _config;;
  _setTransition (duration cfg) (easing cfg);;
  _updateAfterDrag;;
  _clearDrag.

Definition _mouseleaveHandler (pageX : Qc) : M unit :=
  down <- gets _pointerDown;;
  when down
    (modify (set_pointerDown false);;
     update_drag (with_endX (Num pageX));;
     _setCursor GRAB_CURSOR;;
     cfg <- gets _config;;
     _setTransition (duration cfg) (easing cfg);;
     _updateAfterDrag;;
     _clearDrag).

(** The handler bound to each event; for the events whose handlers never
    publish it is the handler defined above (the [handler] of the last
    branch). *)
Definition handler (e : event) : M unit :=
  match e with
  | touchend => _touchendHandler
  | mouseup => _mouseupHandler
  | mouseleave x => _mouseleaveHandler x
  | resize | touchstart _ _ | touchmove _ _ | mousedown _ | mousemove _ =>
      handler e
  end.

Definition dispatch (e : event) : M unit :=
  cfg <- gets _config;;
  match e with
  | resize => handler e
  | _ => when (draggable cfg) (handler e)
  end.

Definition run_call (c : call) : M unit :=
  match c with
  | call_goTo index => goTo index
  | call_moveBy k => moveBy k
  | call_next k => next k
  | call_prev k => prev k
  | call_insert item index => insert item index
  | call_remove index => remove index
  | call_prepend item => prepend item
  | call_append item => append item
  | call_onChange callback => _ <- onChange callback;; ret tt
  | call_event e => dispatch e
  end.

End Subscribers.

End Full.

(** The subscriber whose call throws, in [forEach] order, if there is one. *)
Definition first_throw (behaviour : Callback -> list Z -> option exn)
  (args : list Z) (s : Siema) : option exn :=
  snd (Full.forEach_call behaviour args (_listeners (_eventRegistry s))).

(** Subscribers that throw when they are told that the current index
    is [i], and return otherwise. *)
Definition throws_on_index (i : Z) : Callback -> list Z -> option exn :=
  fun _ args =>
    match args with
    | [j] => if j =? i then Some (Error msg_subscriber) else None
    | _ => None
    end.

(** Subscribers that throw when they are told of a current index of at
    least [i], and return otherwise. *)
Definition throws_from (i : Z) : Callback -> list Z -> option exn :=
  fun _ args =>
    match args with
    | [j] => if i <=? j then Some (Error msg_subscriber) else None
    | _ => None
    end.

(** *** The selector setting *)

(** The [selector] setting of the options: left out (the default,
    [undefined]), a query string, an element (given by its children), or
    [null]. *)
Inductive selector_setting : Type :=
| selector_undefined
| selector_query (query : string)
| selector_element (children : list Item)
| selector_null.

Definition msg_children : string :=
  "Cannot read properties of undefined (reading 'children')".

(** [new Siema(options)] from the selector setting.  [document] is
    [document.querySelector] on the page: the children of the first
    matching element, or [None] for [null].  A query is resolved first; a
    resolved [null] throws the selector error; the default [undefined] passes
    that test and throws on the read of its [children]. *)
Definition new_Siema (document : string -> option (list Item))
  (options : Options) (selector : selector_setting) (surf : Surface)
  : outcome Siema :=
  match selector with
  | selector_query query => constructor options (document query) surf
  | selector_element children => constructor options (Some children) surf
  | selector_null => constructor options None surf
  | selector_undefined => Throw (TypeError msg_children)
  end.

(** The states an instance goes through when, during each call, its
    subscribers behave in one of the [allowed] ways; a subscriber need not
    behave the same way from one call to the next. *)
Inductive reachable_with
  (allowed : (Callback -> list Z -> option exn) -> Prop) : Siema -> Prop :=
| reachable_with_new (document : string -> option (list Item))
    (options : Options) (selector : selector_setting) (surf : Surface)
    (s : Siema) :
    new_Siema document options selector surf = Return s ->
    reachable_with allowed s
| reachable_with_call (behaviour : Callback -> list Z -> option exn)
    (s : Siema) (c : call) :
    allowed behaviour ->
    reachable_with allowed s ->
    reachable_with allowed (exec (Full.run_call behaviour c) s)
| reachable_with_layout (s : Siema) (surf : Surface) :
    reachable_with allowed s ->
    reachable_with allowed (set_surface surf s).

(** The slide list mirrors the element list, the cached payload is the
    current index, and the current index is at least -1. *)
Definition coherent (s : Siema) : Prop :=
  _innerSlides s = _innerElements s /\
  _lastArgs (_eventRegistry s) = [_currentSlide s] /\
  -1 <= _currentSlide s.

(** A computation that keeps [coherent], whether it returns or throws. *)
Definition keeps_coherent {A : Type} (m : M A) : Prop :=
  forall s : Siema, coherent s -> coherent (exec m s).

(* ------------------------------------------------------------------ *)
(** ** Facts about numbers and arrays *)

Section NumberFacts.

Local Open Scope Qc_scope.

Lemma Qcltb_lt (x y : Qc) : Qcltb x y = true <-> x < y.
Proof.
  unfold Qcltb. rewrite Qclt_alt.
  destruct (x ?= y); split; congruence.
Qed.

Lemma Qcltb_ge (x y : Qc) : Qcltb x y = false <-> y <= x.
Proof.
  split; intro H.
  - apply Qcnot_lt_le. intro L. apply Qcltb_lt in L. congruence.
  - destruct (Qcltb x y) eqn:E; [|reflexivity].
    apply Qcltb_lt in E. exfalso. exact (Qcle_not_lt _ _ H E).
Qed.

Lemma Qceqb_eq (x y : Qc) : Qceqb x y = true <-> x = y.
Proof.
  unfold Qceqb. rewrite Qceq_alt.
  destruct (x ?= y); split; congruence.
Qed.

Lemma Qceqb_refl (x : Qc) : Qceqb x x = true.
Proof. now apply Qceqb_eq. Qed.

Lemma strict_eqb_Num_refl (q : Qc) : strict_eqb (Num q) (Num q) = true.
Proof. apply Qceqb_refl. Qed.

Lemma add_NaN_r (x : jsnum) : add x NaN = NaN.
Proof. now destruct x. Qed.

Lemma sub_NaN_r (x : jsnum) : sub x NaN = NaN.
Proof. unfold sub. simpl. apply add_NaN_r. Qed.

Lemma num_min_NaN_r (x : jsnum) : num_min x NaN = NaN.
Proof. now destruct x. Qed.

Lemma num_max_NaN_r (x : jsnum) : num_max x NaN = NaN.
Proof. now destruct x. Qed.

Lemma clamp_NaN (lo hi : jsnum) : clamp NaN lo hi = NaN.
Proof.
  unfold clamp. simpl. rewrite num_min_NaN_r. apply num_max_NaN_r.
Qed.

Lemma two_not_zero : Qceqb (Q2Qc (inject_Z 2)) 0 = false.
Proof. reflexivity. Qed.

Lemma div_two (q : Qc) : div (Num q) two = Num (q / Q2Qc (inject_Z 2)).
Proof. unfold div, two, of_Z. now rewrite two_not_zero. Qed.

Lemma sub_Num (a b : Qc) : sub (Num a) (Num b) = Num (a - b).
Proof. reflexivity. Qed.

(** Unclamped: [clamp t (-Infinity) Infinity] is [t]. *)
Lemma clamp_unbounded (t : jsnum) : clamp t (neg Infinity) Infinity = t.
Proof. now destruct t. Qed.

(** Clamping a finite value between finite bounds, by cases. *)
Lemma clamp_Num (t lo hi : Qc) :
  clamp (Num t) (Num lo) (Num hi) =
  Num (if Qcltb lo (if Qcltb t hi then t else hi)
       then (if Qcltb t hi then t else hi) else lo).
Proof.
  unfold clamp. simpl.
  destruct (Qcltb t hi); simpl.
  - now destruct (Qcltb lo t).
  - now destruct (Qcltb lo hi).
Qed.

Lemma num_min_Num (a b : Qc) :
  num_min (Num a) (Num b) = Num (if Qcltb b a then b else a).
Proof. simpl. now destruct (Qcltb b a). Qed.

End NumberFacts.

Section ArrayFacts.

Context {A : Type}.

Lemma get_in_range (l : list A) (i : Z) :
  0 <= i < Z.of_nat (length l) ->
  exists x, get l i = Some x /\ nth_error l (Z.to_nat i) = Some x.
Proof.
  intros H. unfold get.
  destruct (i <? 0) eqn:E; [apply Z.ltb_lt in E; lia|].
  destruct (nth_error l (Z.to_nat i)) eqn:N.
  - eauto.
  - apply nth_error_None in N. lia.
Qed.

Lemma get_at_length (l : list A) : get l (Z.of_nat (length l)) = None.
Proof.
  unfold get.
  destruct (Z.of_nat (length l) <? 0) eqn:E; [reflexivity|].
  apply nth_error_None. lia.
Qed.

Lemma relative_index_in_range (len i : Z) :
  0 <= i <= len -> relative_index len i = i.
Proof.
  intros H. unfold relative_index.
  destruct (i <? 0) eqn:E; [apply Z.ltb_lt in E; lia | lia].
Qed.

Lemma slice0_firstn (l : list A) (i : Z) :
  0 <= i <= Z.of_nat (length l) -> slice0 l i = firstn (Z.to_nat i) l.
Proof.
  intros H. unfold slice0. now rewrite relative_index_in_range.
Qed.

(** Inserting at a position inside the array and removing at the same
    position gives the array back. *)
Lemma splice_insert_remove (l : list A) (i : Z) (x : A) :
  0 <= i <= Z.of_nat (length l) ->
  splice_remove1 (splice_insert l i x) i = l.
Proof.
  intros H. unfold splice_insert.
  rewrite relative_index_in_range by lia.
  set (k := Z.to_nat i).
  assert (Hk : (k <= length l)%nat) by (unfold k; lia).
  assert (Hlen : length (firstn k l) = k) by (apply firstn_length_le, Hk).
  unfold splice_remove1.
  rewrite relative_index_in_range.
  2:{ rewrite length_app, Hlen. simpl. lia. }
  fold k.
  assert (F : firstn k (firstn k l ++ x :: skipn k l) = firstn k l).
  { rewrite firstn_app, Hlen, Nat.sub_diag. cbn [firstn].
    rewrite app_nil_r. apply firstn_all2. lia. }
  assert (S : skipn (S k) (firstn k l ++ x :: skipn k l) = skipn k l).
  { rewrite skipn_app, Hlen.
    rewrite skipn_all2 by lia.
    replace (S k - k)%nat with 1%nat by lia. reflexivity. }
  rewrite F, S. apply firstn_skipn.
Qed.

Lemma splice_insert_length (l : list A) (i : Z) (x : A) :
  length (splice_insert l i x) = S (length l).
Proof.
  unfold splice_insert.
  set (k := Z.to_nat _).
  rewrite length_app. cbn [length].
  rewrite Nat.add_succ_r, <- length_app, firstn_skipn. reflexivity.
Qed.

Variable eqb : A -> A -> bool.

Lemma indexOf_from_found (x : A) (l : list A) (i : Z) :
  (exists y, In y l /\ eqb y x = true) ->
  i <= indexOf_from eqb x l i < i + Z.of_nat (length l).
Proof.
  revert i. induction l as [|y l IH]; intros i [z [Hin Hz]].
  - destruct Hin.
  - cbn [indexOf_from]. destruct (eqb y x) eqn:E.
    + cbn [length]. lia.
    + destruct Hin as [->|Hin]; [congruence|].
      specialize (IH (i + 1) (ex_intro _ z (conj Hin Hz))).
      cbn [length]. lia.
Qed.

Lemma indexOf_from_missing (x : A) (l : list A) (i : Z) :
  (forall y, In y l -> eqb y x = false) ->
  indexOf_from eqb x l i = -1.
Proof.
  revert i. induction l as [|y l IH]; intros i H; [reflexivity|].
  cbn [indexOf_from]. rewrite (H y (or_introl eq_refl)).
  apply IH. intros z Hz. apply H. now right.
Qed.

End ArrayFacts.

Lemma indexOf_item_absent (l : list Item) (x : Item) :
  (indexOf Nat.eqb l x =? -1) = true <-> ~ In x l.
Proof.
  unfold indexOf. rewrite Z.eqb_eq. split.
  - intros H Hin.
    assert (B : 0 <= indexOf_from Nat.eqb x l 0 < 0 + Z.of_nat (length l)).
    { apply indexOf_from_found. exists x. split; [exact Hin|].
      apply Nat.eqb_refl. }
    lia.
  - intros H. apply indexOf_from_missing.
    intros y Hy. apply Nat.eqb_neq. intros ->. contradiction.
Qed.

(* ------------------------------------------------------------------ *)
(** ** The translation calculator *)

Section Calculator.

Local Open Scope Qc_scope.

Ltac qc_order :=
  repeat match goal with
  | H : Qcltb _ _ = true |- _ => apply Qcltb_lt in H
  | H : Qcltb _ _ = false |- _ => apply Qcltb_ge in H
  end;
  unfold Qcle, Qclt in *;
  try apply Qc_is_canon;
  lra.

Lemma Qc_min_le_l (a b : Qc) : Qc_min a b <= a.
Proof. unfold Qc_min. destruct (Qcltb b a) eqn:E; qc_order. Qed.

Lemma Qc_min_le_r (a b : Qc) : Qc_min a b <= b.
Proof. unfold Qc_min. destruct (Qcltb b a) eqn:E; qc_order. Qed.

Lemma clamp_into_bounds (lo hi t : Qc) :
  lo <= hi -> lo <= clamp_into lo hi t <= hi.
Proof.
  intros H. unfold clamp_into.
  destruct (Qcltb t lo) eqn:E1; [|destruct (Qcltb hi t) eqn:E2];
    split; qc_order.
Qed.

Lemma clamp_into_inside (lo hi t : Qc) :
  lo <= t <= hi -> clamp_into lo hi t = t.
Proof.
  intros [H1 H2]. unfold clamp_into.
  destruct (Qcltb t lo) eqn:E1; [|destruct (Qcltb hi t) eqn:E2];
    try reflexivity; qc_order.
Qed.

Lemma clamp_into_below (lo hi t : Qc) : t < lo -> clamp_into lo hi t = lo.
Proof.
  intros H. unfold clamp_into. apply Qcltb_lt in H. now rewrite H.
Qed.

Lemma clamp_into_above (lo hi t : Qc) :
  lo <= hi -> hi < t -> clamp_into lo hi t = hi.
Proof.
  intros H1 H2. unfold clamp_into.
  destruct (Qcltb t lo) eqn:E1; [qc_order|].
  apply Qcltb_lt in H2. now rewrite H2.
Qed.

(** [Siema.clamp] on finite values is [clamp_into]. *)
Lemma clamp_is_clamp_into (t lo hi : Qc) :
  lo <= hi -> clamp (Num t) (Num lo) (Num hi) = Num (clamp_into lo hi t).
Proof.
  intros H. rewrite clamp_Num. f_equal. unfold clamp_into.
  destruct (Qcltb t hi) eqn:E1, (Qcltb t lo) eqn:E2, (Qcltb hi t) eqn:E3;
    try destruct (Qcltb lo t) eqn:E4; try destruct (Qcltb lo hi) eqn:E5;
    try reflexivity; qc_order.
Qed.

Lemma fold_add_Num (l : list Qc) (a : Qc) :
  fold_left (fun sum width => add sum width) (map Num l) (Num a)
  = Num (fold_left Qcplus l a).
Proof.
  revert a. induction l as [|w l IH]; intros a; [reflexivity|].
  cbn [map fold_left]. apply IH.
Qed.

Lemma fold_plus_sum_before (ws : list Qc) (k : nat) (a : Qc) :
  fold_left Qcplus (firstn k ws) a = a + sum_before ws k.
Proof.
  revert ws a. induction k as [|k IH]; intros ws a.
  - cbn [firstn fold_left sum_before]. ring.
  - destruct ws as [|w ws]; cbn [firstn fold_left sum_before]; [ring|].
    rewrite IH. ring.
Qed.

Lemma previousWidthSum_is_sum_before (ws : list Qc) (index : Z) :
  (0 <= index <= Z.of_nat (length ws))%Z ->
  reduce (fun sum width => add sum width) zero (slice0 (map Num ws) index)
  = Num (sum_before ws (Z.to_nat index)).
Proof.
  intros H. unfold reduce, zero.
  rewrite slice0_firstn by (now rewrite length_map).
  rewrite firstn_map, fold_add_Num, fold_plus_sum_before.
  f_equal. ring.
Qed.

Lemma get_width (ws : list Qc) (index : Z) :
  (0 <= index < Z.of_nat (length ws))%Z ->
  get (map Num ws) index = Some (Num (nth (Z.to_nat index) ws 0)).
Proof.
  intros H.
  destruct (get_in_range (map Num ws) index) as [x [G N]];
    [now rewrite length_map|].
  rewrite G. f_equal.
  rewrite nth_error_map in N.
  destruct (nth_error ws (Z.to_nat index)) eqn:E; [|discriminate].
  injection N as <-. f_equal. symmetry. now apply nth_error_nth.
Qed.

(** The calculator on an index that designates an item, unclamped. *)
Lemma calculateTranslation_unclamped (cw fw : Qc) (ws : list Qc) (index : Z) :
  (0 <= index < Z.of_nat (length ws))%Z ->
  calculateTranslation_of (Num cw) (Num fw) (map Num ws) index false
  = Num (centred_offset cw ws (Z.to_nat index)).
Proof.
  intros H. unfold calculateTranslation_of.
  rewrite previousWidthSum_is_sum_before by lia.
  rewrite get_width by lia. cbn [ToNumber].
  rewrite !div_two, !sub_Num. apply clamp_unbounded.
Qed.

Lemma calculateTranslation_clamped (cw fw : Qc) (ws : list Qc) (index : Z) :
  (0 <= index < Z.of_nat (length ws))%Z ->
  calculateTranslation_of (Num cw) (Num fw) (map Num ws) index true
  = Num (clamp_into (Qc_min 0 (cw - fw)) 0
           (centred_offset cw ws (Z.to_nat index))).
Proof.
  intros H. unfold calculateTranslation_of.
  rewrite previousWidthSum_is_sum_before by lia.
  rewrite get_width by lia. cbn [ToNumber].
  rewrite !div_two, !sub_Num.
  change (Math_min zero (Num (cw - fw))) with (num_min (Num 0) (Num (cw - fw))).
  rewrite num_min_Num.
  change (if Qcltb (cw - fw) 0 then cw - fw else 0) with (Qc_min 0 (cw - fw)).
  apply clamp_is_clamp_into. apply Qc_min_le_l.
Qed.

(** An index past the last item reads an [undefined] width: the result is
    NaN whatever the clamping mode. *)
Lemma calculateTranslation_no_width (cw fw : jsnum) (widths : list jsnum)
  (index : Z) (stick : bool) :
  get widths index = None ->
  calculateTranslation_of cw fw widths index stick = NaN.
Proof.
  intros G. unfold calculateTranslation_of. rewrite G. cbn [ToNumber].
  change (div NaN two) with NaN. rewrite sub_NaN_r. apply clamp_NaN.
Qed.

End Calculator.

(* ------------------------------------------------------------------ *)
(** ** Running the methods *)

Arguments clamp : simpl never.
Arguments translation_for : simpl never.
Arguments deliveries : simpl never.
Arguments itemCount : simpl never.
Arguments indexOf : simpl never.
Arguments splice_insert : simpl never.
Arguments splice_remove1 : simpl never.

Ltac run :=
  unfold exec, result, bind, gets, modify, ret, throw, when, emit;
  cbn.

Lemma _setCurrentSlide_run (i : Z) (s : Siema) :
  _setCurrentSlide i s =
  (Return tt,
   emit_all (deliveries [i] s)
     (set_eventRegistry
        {| _listeners := _listeners (_eventRegistry s); _lastArgs := [i] |}
        (set_currentSlide i s))).
Proof. reflexivity. Qed.

Lemma _slideToCurrent_run (s : Siema) :
  _slideToCurrent s =
  (Return tt,
   set_currentTranslation
     (translation_for s (_currentSlide s) (stickToEdges (_config s)))
     (emit_all
        [ApplyTransform
           (translation_for s (_currentSlide s) (stickToEdges (_config s)))]
        s)).
Proof. reflexivity. Qed.

Lemma _resetFrameSlides_returns (s : Siema) :
  result _resetFrameSlides s = Return tt.
Proof.
  unfold _resetFrameSlides. run. now destruct (draggable (_config s)).
Qed.

Lemma _resetFrameSlides_state (s : Siema) :
  let s' := exec _resetFrameSlides s in
  _innerElements s' = _innerElements s /\
  _innerSlides s' = _innerElements s /\
  _currentSlide s' = _currentSlide s /\
  _eventRegistry s' = _eventRegistry s /\
  _currentTranslation s' = zero.
Proof.
  unfold _resetFrameSlides. run.
  destruct (draggable (_config s)); cbn; rewrite map_id; auto.
Qed.

Lemma goTo_run (s : Siema) (index : Z) :
  goTo index s =
  let c := clamp index 0 (itemCount s) in
  let published := snd (_setCurrentSlide c s) in
  if c =? _currentSlide s then (Return tt, published)
  else _slideToCurrent published.
Proof.
  unfold goTo. run. fold (itemCount s).
  rewrite (Z.eqb_sym (_currentSlide s)).
  now destruct (clamp index 0 (itemCount s) =? _currentSlide s).
Qed.

Lemma goTo_state (s : Siema) (index : Z) :
  result (goTo index) s = Return tt /\
  _currentSlide (exec (goTo index) s) = clamp index 0 (itemCount s) /\
  _lastArgs (_eventRegistry (exec (goTo index) s))
    = [clamp index 0 (itemCount s)].
Proof.
  unfold exec, result. rewrite goTo_run. cbv zeta.
  destruct (clamp index 0 (itemCount s) =? _currentSlide s).
  - rewrite _setCurrentSlide_run. cbn. auto.
  - rewrite _slideToCurrent_run, _setCurrentSlide_run. cbn. auto.
Qed.

Lemma clamp_index_bounds (index n : Z) :
  0 <= n -> 0 <= clamp index 0 n <= n.
Proof. intros H. unfold clamp. cbn. lia. Qed.

(** [goTo] leaves CurrentIndex inside [0, itemCount]. *)
Lemma goTo_in_bounds (s : Siema) (index : Z) :
  0 <= _currentSlide (exec (goTo index) s) <= itemCount s.
Proof.
  destruct (goTo_state s index) as (_ & C & _). rewrite C.
  apply clamp_index_bounds. unfold itemCount, length_of. lia.
Qed.

(* ------------------------------------------------------------------ *)
(** ** Slide position controller *)



Lemma remove_run (s : Siema) (index : Z) :
  remove index s =
  if (index <? 0) || (index >=? itemCount s)
  then (Throw (Error msg_remove), s)
  else
    _resetFrameSlides
      (set_innerElements (splice_remove1 (_innerElements s) index)
         (snd (_setCurrentSlide
                 (if index <=? _currentSlide s
                  then _currentSlide s - 1 else _currentSlide s) s))).
Proof.
  unfold remove, bind, gets, throw, modify. cbv beta iota.
  fold (itemCount s).
  destruct ((index <? 0) || (index >=? itemCount s)); reflexivity.
Qed.

Lemma insert_run (s : Siema) (item : Item) (index : Z) :
  insert item index s =
  if (index <? 0) || (index >? itemCount s + 1)
  then (Throw (Error msg_insert_index), s)
  else if negb (indexOf Nat.eqb (_innerElements s) item =? -1)
  then (Throw (Error msg_insert_same), s)
  else
    _resetFrameSlides
      (set_innerElements (splice_insert (_innerElements s) index item)
         (snd (_setCurrentSlide
                 (if index <=? _currentSlide s
                  then _currentSlide s + 1 else _currentSlide s) s))).
Proof.
  unfold insert, bind, gets, throw, modify. cbv beta iota.
  fold (itemCount s).
  destruct ((index <? 0) || (index >? itemCount s + 1)); [reflexivity|].
  destruct (negb (indexOf Nat.eqb (_innerElements s) item =? -1));
    reflexivity.
Qed.

Lemma remove_range_test (s : Siema) (index : Z) :
  (index <? 0) || (index >=? itemCount s) = true
  <-> index < 0 \/ itemCount s <= index.
Proof. rewrite orb_true_iff, Z.ltb_lt, Z.geb_le. tauto. Qed.

Lemma insert_range_test (s : Siema) (index : Z) :
  (index <? 0) || (index >? itemCount s + 1) = true
  <-> index < 0 \/ itemCount s + 1 < index.
Proof.
  rewrite orb_true_iff, Z.ltb_lt, Z.gtb_lt. tauto.
Qed.

Lemma insert_same_test (s : Siema) (item : Item) :
  negb (indexOf Nat.eqb (_innerElements s) item =? -1) = true
  <-> In item (_innerElements s).
Proof.
  rewrite negb_true_iff.
  destruct (indexOf Nat.eqb (_innerElements s) item =? -1) eqn:E.
  - apply indexOf_item_absent in E. split; [discriminate | contradiction].
  - split; [intros _ | reflexivity].
    destruct (In_dec Nat.eq_dec item (_innerElements s)) as [I|I];
      [exact I|].
    apply indexOf_item_absent in I. congruence.
Qed.

Lemma remove_ok (s : Siema) (index : Z) :
  0 <= index < itemCount s ->
  result (remove index) s = Return tt /\
  _innerElements (exec (remove index) s)
    = splice_remove1 (_innerElements s) index /\
  _innerSlides (exec (remove index) s)
    = splice_remove1 (_innerElements s) index /\
  _currentSlide (exec (remove index) s)
    = (if index <=? _currentSlide s
       then _currentSlide s - 1 else _currentSlide s).
Proof.
  intros H. unfold result, exec. rewrite remove_run.
  destruct ((index <? 0) || (index >=? itemCount s)) eqn:E.
  - apply remove_range_test in E. lia.
  - rewrite _setCurrentSlide_run. cbn [snd].
    split; [apply _resetFrameSlides_returns|].
    match goal with |- context [_resetFrameSlides ?t] =>
      destruct (_resetFrameSlides_state t) as (E1 & E2 & E3 & _)
    end.
    unfold exec in E1, E2, E3. rewrite E1, E2, E3. cbn. auto.
Qed.

Lemma insert_ok (s : Siema) (item : Item) (index : Z) :
  0 <= index <= itemCount s + 1 ->
  ~ In item (_innerElements s) ->
  result (insert item index) s = Return tt /\
  _innerElements (exec (insert item index) s)
    = splice_insert (_innerElements s) index item /\
  _innerSlides (exec (insert item index) s)
    = splice_insert (_innerElements s) index item /\
  _currentSlide (exec (insert item index) s)
    = (if index <=? _currentSlide s
       then _currentSlide s + 1 else _currentSlide s).
Proof.
  intros H N. unfold result, exec. rewrite insert_run.
  destruct ((index <? 0) || (index >? itemCount s + 1)) eqn:E.
  { apply insert_range_test in E. lia. }
  destruct (negb (indexOf Nat.eqb (_innerElements s) item =? -1)) eqn:D.
  { apply insert_same_test in D. contradiction. }
  rewrite _setCurrentSlide_run. cbn [snd].
  split; [apply _resetFrameSlides_returns|].
  match goal with |- context [_resetFrameSlides ?t] =>
    destruct (_resetFrameSlides_state t) as (E1 & E2 & E3 & _)
  end.
  unfold exec in E1, E2, E3. rewrite E1, E2, E3. cbn. auto.
Qed.

Lemma itemCount_after_insert (s : Siema) (item : Item) (index : Z) :
  0 <= index <= itemCount s + 1 ->
  ~ In item (_innerElements s) ->
  itemCount (exec (insert item index) s) = itemCount s + 1.
Proof.
  intros H N. destruct (insert_ok s item index H N) as (_ & E & _).
  unfold itemCount, length_of. rewrite E, splice_insert_length. lia.
Qed.

Lemma splice_remove1_length {A : Type} (l : list A) (i : Z) :
  0 <= i < Z.of_nat (length l) ->
  Z.of_nat (length (splice_remove1 l i)) = Z.of_nat (length l) - 1.
Proof.
  intros H. unfold splice_remove1.
  rewrite relative_index_in_range by lia.
  rewrite length_app, length_firstn, length_skipn. lia.
Qed.

(** What [remove] does to the bounds of CurrentIndex: the upper bound is
    kept, and the lower bound is lost exactly when the first item is removed
    while it is the current one. *)
Lemma remove_bounds (s : Siema) (index : Z) :
  0 <= _currentSlide s <= itemCount s ->
  0 <= index < itemCount s ->
  itemCount (exec (remove index) s) = itemCount s - 1 /\
  _currentSlide (exec (remove index) s) <= itemCount (exec (remove index) s) /\
  (_currentSlide (exec (remove index) s) < 0
   <-> _currentSlide s = 0 /\ index = 0).
Proof.
  intros B H. destruct (remove_ok s index H) as (_ & E & _ & C).
  assert (L : itemCount (exec (remove index) s) = itemCount s - 1).
  { unfold itemCount, length_of. rewrite E.
    apply splice_remove1_length. exact H. }
  rewrite L, C.
  destruct (index <=? _currentSlide s) eqn:T;
    [apply Z.leb_le in T | apply Z.leb_gt in T]; lia.
Qed.

(** What [insert] does to the bounds of CurrentIndex: both are kept. *)
Lemma insert_bounds (s : Siema) (item : Item) (index : Z) :
  0 <= _currentSlide s <= itemCount s ->
  0 <= index <= itemCount s + 1 ->
  ~ In item (_innerElements s) ->
  0 <= _currentSlide (exec (insert item index) s)
    <= itemCount (exec (insert item index) s).
Proof.
  intros B H N. rewrite (itemCount_after_insert s item index H N).
  destruct (insert_ok s item index H N) as (_ & _ & _ & C). rewrite C.
  destruct (index <=? _currentSlide s); lia.
Qed.

(** C3 on the code: on the freshly constructed four-item carousel the
    bounds hold (CurrentIndex 0), [remove 0] is accepted, and it leaves
    CurrentIndex at -1, below the lower bound. *)
Theorem remove_first_at_first_goes_negative :
  0 <= _currentSlide carousel4 <= itemCount carousel4 /\
  result (remove 0) carousel4 = Return tt /\
  itemCount (exec (remove 0) carousel4) = 3 /\
  _currentSlide (exec (remove 0) carousel4) = -1.
Proof.
  repeat split; try (vm_compute; congruence); vm_compute; reflexivity.
Qed.






(* ------------------------------------------------------------------ *)
(** ** Translation calculator *)

(** C1: for an index that designates one of the items, the calculator
    returns [containerWidth/2 - (sum of the widths before index) -
    itemWidths[index]/2] unchanged when [stickToEdges] is false, and that
    value clamped into [[min(0, containerWidth - frameWidth), 0]] when it is
    true. *)
Theorem calculateTranslation_centres_and_clamps
  (cw fw : Qc) (ws : list Qc) (index : Z) :
  0 <= index <= Z.of_nat (length ws) - 1 ->
  calculateTranslation_of (Num cw) (Num fw) (map Num ws) index false
    = Num (centred_offset cw ws (Z.to_nat index)) /\
  calculateTranslation_of (Num cw) (Num fw) (map Num ws) index true
    = Num (clamp_into (Qc_min 0 (cw - fw)) 0
             (centred_offset cw ws (Z.to_nat index))) /\
  (Qc_min 0 (cw - fw)
   <= clamp_into (Qc_min 0 (cw - fw)) 0
        (centred_offset cw ws (Z.to_nat index))
   <= 0)%Qc.
Proof.
  intros H. split; [|split].
  - apply calculateTranslation_unclamped. lia.
  - apply calculateTranslation_clamped. lia.
  - apply clamp_into_bounds, Qc_min_le_l.
Qed.

(** Witness for C1: index 1 of four items of width 50, container and frame
    of width 200. *)
Lemma calculateTranslation_centres_and_clamps_witness :
  calculateTranslation_of (Num (Q2Qc 200)) (Num (Q2Qc 200))
    (map Num [Q2Qc 50; Q2Qc 50; Q2Qc 50; Q2Qc 50]) 1 false
    = Num (centred_offset (Q2Qc 200)
             [Q2Qc 50; Q2Qc 50; Q2Qc 50; Q2Qc 50] (Z.to_nat 1)) /\
  calculateTranslation_of (Num (Q2Qc 200)) (Num (Q2Qc 200))
    (map Num [Q2Qc 50; Q2Qc 50; Q2Qc 50; Q2Qc 50]) 1 true
    = Num (clamp_into (Qc_min 0 (Q2Qc 200 - Q2Qc 200)) 0
             (centred_offset (Q2Qc 200)
                [Q2Qc 50; Q2Qc 50; Q2Qc 50; Q2Qc 50] (Z.to_nat 1))) /\
  (Qc_min 0 (Q2Qc 200 - Q2Qc 200)
   <= clamp_into (Qc_min 0 (Q2Qc 200 - Q2Qc 200)) 0
        (centred_offset (Q2Qc 200)
           [Q2Qc 50; Q2Qc 50; Q2Qc 50; Q2Qc 50] (Z.to_nat 1))
   <= 0)%Qc.
Proof.
  apply (calculateTranslation_centres_and_clamps
           (Q2Qc 200) (Q2Qc 200) [Q2Qc 50; Q2Qc 50; Q2Qc 50; Q2Qc 50] 1).
  simpl. lia.
Defined.

(** C5, as stated, fails: on the carousel without items the calculator
    returns NaN at index 0, not 0; and at the index equal to the item count
    of the four-item carousel it returns NaN, not the offset obtained with a
    width of 0 there. *)
Lemma calculator_degenerate_input_gives_NaN :
  itemCount carousel0 = 0 /\
  translation_for carousel0 0 true <> zero /\
  itemCount carousel4 = 4 /\
  translation_for carousel4 4 false
    <> Num (centred_offset (Q2Qc 200)
              [Q2Qc 50; Q2Qc 50; Q2Qc 50; Q2Qc 50] 4).
Proof.
  repeat split; try (vm_compute; congruence); vm_compute; discriminate.
Qed.

(** C5 (amended): the calculator never throws, whatever the index; with
    zero items at index 0, and at the index equal to the item count, the
    width it reads is undefined and the offset it returns is NaN, in both
    clamping modes. *)
Theorem calculator_total_NaN_past_last_item
  (s : Siema) (index : Z) (stick : bool) (cw fw : jsnum) :
  _calculateTranslation index stick s
    = (Return (translation_for s index stick), s) /\
  calculateTranslation_of cw fw [] 0 stick = NaN /\
  translation_for s (length_of (_innerSlides s)) stick = NaN.
Proof.
  split; [reflexivity|]. split.
  - now apply calculateTranslation_no_width.
  - unfold translation_for. apply calculateTranslation_no_width.
    unfold measured_widths, length_of.
    rewrite <- (length_map (fun el => Num (slideWidth (surface s) el))).
    apply get_at_length.
Qed.

(* ------------------------------------------------------------------ *)
(** ** Notification hub *)

Lemma Set_add_in (l : list Callback) (x : Callback) : In x (Set_add_ l x).
Proof.
  unfold Set_add_. destruct (Set_has_ l x) eqn:E.
  - unfold Set_has_ in E. apply existsb_exists in E.
    destruct E as [y [Hy E]]. apply Nat.eqb_eq in E. now subst.
  - apply in_or_app. right. now left.
Qed.

(** C9 on the code: for every registry, callback and later payload, the
    handle returned by [listen] throws a TypeError when called (the listener
    set has no [remove] method), the registry is left as it was with the
    callback still subscribed, and the next [notify] still delivers to that
    callback. *)
Theorem unsubscribe_handle_throws_and_callback_stays
  (r : CachedEventRegistry) (callback : Callback) (args : list Z) :
  Set_prototype "remove" = None /\
  Registry.call (snd (Registry.listen callback r))
      (fst (fst (Registry.listen callback r)))
    = (Throw (TypeError msg_not_a_function),
       fst (fst (Registry.listen callback r))) /\
  In callback (_listeners (fst (fst (Registry.listen callback r)))) /\
  In (Deliver callback args)
     (snd (Registry.notify args (fst (fst (Registry.listen callback r))))).
Proof.
  split; [reflexivity|]. split; [reflexivity|].
  cbn. split.
  - apply Set_add_in.
  - apply in_map_iff. exists callback. split; [reflexivity|].
    apply Set_add_in.
Qed.

Lemma constructor_body_run (options : Options) (children : list Item)
  (surf : Surface) :
  result constructor_body (blank_instance options children surf)
    = Return tt /\
  _innerElements (exec constructor_body (blank_instance options children surf))
    = children /\
  _currentSlide (exec constructor_body (blank_instance options children surf))
    = 0 /\
  _eventRegistry (exec constructor_body (blank_instance options children surf))
    = {| _listeners := []; _lastArgs := [0] |}.
Proof.
  unfold constructor_body, _resetFrameSlides, _attachEvents. run.
  destruct (or_default (o_draggable options) true) eqn:D;
    cbn; rewrite ?D; cbn; auto.
Qed.

Lemma goTo_frame (s : Siema) (index : Z) :
  _innerElements (exec (goTo index) s) = _innerElements s /\
  _listeners (_eventRegistry (exec (goTo index) s))
    = _listeners (_eventRegistry s).
Proof.
  unfold exec. rewrite goTo_run. cbv zeta.
  destruct (clamp index 0 (itemCount s) =? _currentSlide s).
  - rewrite _setCurrentSlide_run. cbn. auto.
  - rewrite _slideToCurrent_run, _setCurrentSlide_run. cbn. auto.
Qed.

Lemma last_cons_default {A : Type} (x : A) (l : list A) (d d' : A) :
  last (x :: l) d = last (x :: l) d'.
Proof.
  revert x. induction l as [|y l IH]; intros x; [reflexivity|].
  change (last (y :: l) d = last (y :: l) d'). apply IH.
Qed.

Lemma goTo_all_run (calls : list Z) :
  forall s : Siema,
    _lastArgs (_eventRegistry s) = [_currentSlide s] ->
    result (goTo_all calls) s = Return tt /\
    itemCount (exec (goTo_all calls) s) = itemCount s /\
    _listeners (_eventRegistry (exec (goTo_all calls) s))
      = _listeners (_eventRegistry s) /\
    _lastArgs (_eventRegistry (exec (goTo_all calls) s))
      = [_currentSlide (exec (goTo_all calls) s)] /\
    _currentSlide (exec (goTo_all calls) s)
      = last (map (fun i => clamp i 0 (itemCount s)) calls) (_currentSlide s).
Proof.
  induction calls as [|index rest IH]; intros s Inv.
  - cbn. auto.
  - destruct (goTo_state s index) as (R & C & L).
    destruct (goTo_frame s index) as [F1 F2].
    unfold result, exec in *. cbn [goTo_all]. unfold bind.
    destruct (goTo index s) as [o s1]. cbn [fst snd] in *. subst o.
    assert (Inv1 : _lastArgs (_eventRegistry s1) = [_currentSlide s1])
      by (now rewrite L, C).
    assert (N : itemCount s1 = itemCount s)
      by (unfold itemCount; now rewrite F1).
    destruct (IH s1 Inv1) as (R' & N' & F' & L' & C').
    rewrite N in *.
    repeat split; try assumption; try congruence.
    rewrite C', C. cbn [map].
    destruct rest as [|j rest']; [reflexivity|].
    cbn [map].
    etransitivity; [apply last_cons_default with (d' := _currentSlide s)|].
    reflexivity.
Qed.

(** C7: after construction and any sequence of [goTo] calls (which all
    return), the cached payload is the current index, which is the clamped
    argument of the last [goTo] (0 when there was none); [onChange callback]
    then returns its handle having made exactly one delivery, of that index
    to that callback. *)
Theorem late_subscriber_receives_latest_index
  (options : Options) (children : list Item) (surf : Surface)
  (calls : list Z) (callback : Callback) :
  exists s0 : Siema,
    constructor options (Some children) surf = Return s0 /\
    result (goTo_all calls) s0 = Return tt /\
    _currentSlide (exec (goTo_all calls) s0)
      = last (map (fun i => clamp i 0 (length_of children)) calls) 0 /\
    _lastArgs (_eventRegistry (exec (goTo_all calls) s0))
      = [_currentSlide (exec (goTo_all calls) s0)] /\
    result (onChange callback) (exec (goTo_all calls) s0)
      = Return (Registry.Unsubscribe callback) /\
    trace (exec (onChange callback) (exec (goTo_all calls) s0))
      = trace (exec (goTo_all calls) s0)
          ++ [Deliver callback [_currentSlide (exec (goTo_all calls) s0)]].
Proof.
  destruct (constructor_body_run options children surf) as (R & E & C & G).
  exists (exec constructor_body (blank_instance options children surf)).
  set (s0 := exec constructor_body (blank_instance options children surf))
    in *.
  assert (K : constructor options (Some children) surf = Return s0).
  { unfold constructor, s0, exec, result in *.
    destruct (constructor_body (blank_instance options children surf))
      as [o t]. cbn [fst snd] in *. now subst o. }
  assert (Inv : _lastArgs (_eventRegistry s0) = [_currentSlide s0])
    by (now rewrite G, C).
  destruct (goTo_all_run calls s0 Inv) as (R' & N' & F' & L' & C').
  split; [exact K|]. split; [exact R'|]. split.
  { rewrite C', C. unfold itemCount. now rewrite E. }
  split; [exact L'|].
  set (s := exec (goTo_all calls) s0) in *. clearbody s.
  unfold onChange, result, exec, Registry.listen. cbn.
  rewrite L'. cbn. auto.
Qed.

(* ------------------------------------------------------------------ *)
(** ** Gesture handlers *)

Lemma mapM_calculate (l : list Z) (s : Siema) :
  mapM (fun i => _calculateTranslation i false) l s
  = (Return (map (fun i => translation_for s i false) l), s).
Proof.
  induction l as [|i l IH]; [reflexivity|].
  cbn [mapM map]. unfold bind, _calculateTranslation, gets in *.
  rewrite IH. reflexivity.
Qed.

Lemma _updateAfterDrag_run (s : Siema) :
  _updateAfterDrag s =
  match closest (_currentTranslation s) (candidate_offsets s) with
  | None => (Throw (TypeError msg_reduce), s)
  | Some c =>
      _slideToCurrent
        (snd (_setCurrentSlide
                (indexOf strict_eqb (candidate_offsets s) c) s))
  end.
Proof.
  unfold _updateAfterDrag, bind, gets. cbv beta iota.
  rewrite mapM_calculate. fold (candidate_offsets s).
  destruct (closest (_currentTranslation s) (candidate_offsets s));
    reflexivity.
Qed.

Lemma in_indices {A : Type} (l : list A) (i : Z) :
  In i (indices l) -> 0 <= i < Z.of_nat (length l).
Proof.
  unfold indices. intros H. apply in_map_iff in H.
  destruct H as [k [<- H]]. apply in_seq in H. lia.
Qed.

Lemma measured_widths_map (s : Siema) :
  measured_widths s = map Num (map (slideWidth (surface s)) (_innerSlides s)).
Proof. unfold measured_widths. now rewrite map_map. Qed.

(** Every candidate offset is a finite number. *)
Lemma candidate_offsets_finite (s : Siema) :
  exists qs : list Qc,
    candidate_offsets s = map Num qs /\
    length qs = length (_innerSlides s).
Proof.
  exists (map (fun i =>
            centred_offset (containerWidth (surface s))
              (map (slideWidth (surface s)) (_innerSlides s)) (Z.to_nat i))
          (indices (_innerSlides s))).
  split.
  - unfold candidate_offsets. rewrite map_map. apply map_ext_in.
    intros i Hi. apply in_indices in Hi.
    unfold translation_for. rewrite measured_widths_map.
    apply calculateTranslation_unclamped. now rewrite length_map.
  - unfold indices. now rewrite !length_map, length_seq.
Qed.

Lemma fold_closer_in (value : jsnum) (l : list jsnum) (init : jsnum) :
  In (fold_left (closer value) l init) (init :: l).
Proof.
  revert init. induction l as [|x l IH]; intros init; [now left|].
  cbn [fold_left]. specialize (IH (closer value init x)).
  destruct IH as [E | I].
  - rewrite <- E. unfold closer.
    destruct (ltb _ _); [right; now left | now left].
  - right. now right.
Qed.

(** The resolution throws on an empty slide list, and otherwise selects an
    index of a slide and slides to it. *)
Lemma _updateAfterDrag_cases (s : Siema) :
  (_innerSlides s = [] /\
   _updateAfterDrag s = (Throw (TypeError msg_reduce), s)) \/
  (exists i : Z,
     0 <= i <= length_of (_innerSlides s) - 1 /\
     _updateAfterDrag s = _slideToCurrent (snd (_setCurrentSlide i s))).
Proof.
  rewrite _updateAfterDrag_run.
  destruct (candidate_offsets_finite s) as [qs [E L]]. rewrite E.
  destruct qs as [|q qs].
  - left. split; [|reflexivity].
    destruct (_innerSlides s); [reflexivity | discriminate].
  - right. cbn [map closest reduce1].
    pose proof (fold_closer_in (_currentTranslation s) (map Num qs) (Num q))
      as I.
    change (Num q :: map Num qs) with (map Num (q :: qs)) in *.
    apply in_map_iff in I. destruct I as [q' [Eq I]]. rewrite <- Eq.
    eexists. split; [|reflexivity].
    assert (B : 0 <= indexOf_from strict_eqb (Num q') (map Num (q :: qs)) 0
                < 0 + Z.of_nat (length (map Num (q :: qs)))).
    { apply indexOf_from_found. exists (Num q'). split.
      - apply in_map_iff. now exists q'.
      - apply strict_eqb_Num_refl. }
    rewrite length_map, L in B. unfold indexOf, length_of. lia.
Qed.

Lemma resolution_outcome (s t : Siema) (after : M unit) :
  _innerSlides t = _innerSlides s ->
  length (_innerSlides s) = length (_innerElements s) ->
  (forall u, result after u = Return tt /\
             _currentSlide (exec after u) = _currentSlide u) ->
  if itemCount s =? 0
  then result (_updateAfterDrag;; after) t = Throw (TypeError msg_reduce)
  else result (_updateAfterDrag;; after) t = Return tt /\
       0 <= _currentSlide (exec (_updateAfterDrag;; after) t)
         <= itemCount s - 1.
Proof.
  intros S W A. unfold result, exec, bind.
  destruct (_updateAfterDrag_cases t) as [[Z E] | [i [B E]]]; rewrite E.
  - rewrite S in Z.
    assert (N : itemCount s = 0)
      by (unfold itemCount, length_of; rewrite <- W, Z; reflexivity).
    rewrite N. reflexivity.
  - rewrite S in B. unfold length_of in B. rewrite W in B.
    fold (length_of (_innerElements s)) in B. fold (itemCount s) in B.
    destruct (itemCount s =? 0) eqn:N; [apply Z.eqb_eq in N; lia|].
    rewrite _slideToCurrent_run, _setCurrentSlide_run. cbn [fst snd].
    match goal with |- context [after ?u] =>
      destruct (A u) as [R C]; unfold result, exec in R, C;
      destruct (after u) as [o v]
    end.
    cbn [fst snd] in *. subst o. split; [reflexivity|].
    rewrite C. cbn. exact B.
Qed.

Lemma _clearDrag_frame (u : Siema) :
  result _clearDrag u = Return tt /\
  _currentSlide (exec _clearDrag u) = _currentSlide u.
Proof. split; reflexivity. Qed.

Lemma transition_then_clearDrag_frame (u : Siema) :
  result (cfg <- gets _config;;
          _setTransition (duration cfg) (easing cfg);;
          _clearDrag) u = Return tt /\
  _currentSlide (exec (cfg <- gets _config;;
                       _setTransition (duration cfg) (easing cfg);;
                       _clearDrag) u) = _currentSlide u.
Proof. split; reflexivity. Qed.

Lemma bind_modify {B : Type} (f : Siema -> Siema) (k : unit -> M B)
  (s : Siema) :
  bind (modify f) k s = k tt (f s).
Proof. reflexivity. Qed.

Lemma bind_gets {A B : Type} (f : Siema -> A) (k : A -> M B) (s : Siema) :
  bind (gets f) k s = k (f s) s.
Proof. reflexivity. Qed.

(** Each releasing handler, up to the point where it reaches the
    resolution. *)
Lemma _touchendHandler_release (s : Siema) :
  truthy (endX (_drag s)) = true ->
  _touchendHandler s =
  (_updateAfterDrag;;
   cfg <- gets _config;;
   _setTransition (duration cfg) (easing cfg);;
   _clearDrag) (set_pointerDown false s).
Proof.
  intros T. unfold _touchendHandler.
  rewrite bind_modify, bind_gets. cbn [_drag set_pointerDown].
  rewrite T. reflexivity.
Qed.

Lemma _mouseupHandler_release (s : Siema) :
  _mouseupHandler s =
  (_updateAfterDrag;; _clearDrag)
    (emit_all [ApplyTransition (duration (_config s)) (easing (_config s))]
       (emit_all [ApplyCursor GRAB_CURSOR] (set_pointerDown false s))).
Proof. reflexivity. Qed.

Lemma _mouseleaveHandler_release (s : Siema) (pageX : Qc) :
  _pointerDown s = true ->
  _mouseleaveHandler pageX s =
  (_updateAfterDrag;; _clearDrag)
    (emit_all [ApplyTransition (duration (_config s)) (easing (_config s))]
       (emit_all [ApplyCursor GRAB_CURSOR]
          (set_drag (with_endX (Num pageX) (_drag s))
             (set_pointerDown false s)))).
Proof.
  intros T. unfold _mouseleaveHandler.
  rewrite bind_gets, T. reflexivity.
Qed.



(** The touch path of C6: a touch-end with no recorded end position keeps
    CurrentIndex, the translation and the registry, publishes nothing, and
    only restores the configured transition. *)
Lemma touchend_without_move_is_tap (s : Siema) :
  truthy (endX (_drag s)) = false ->
  result _touchendHandler s = Return tt /\
  _currentSlide (exec _touchendHandler s) = _currentSlide s /\
  _currentTranslation (exec _touchendHandler s) = _currentTranslation s /\
  _eventRegistry (exec _touchendHandler s) = _eventRegistry s /\
  trace (exec _touchendHandler s)
    = trace s ++ [ApplyTransition (duration (_config s)) (easing (_config s))].
Proof.
  intros T. unfold result, exec, _touchendHandler.
  rewrite bind_modify, bind_gets. cbn [_drag set_pointerDown].
  rewrite T. cbn. auto.
Qed.

(** C6 on the code, mouse path: on the four-item carousel with one
    subscriber and CurrentIndex 0, a mouse-down followed by a mouse-up with
    no move in between (no end position recorded) runs the resolution: it
    returns normally, moves CurrentIndex to 1 and delivers the new index to
    the subscriber. *)
Theorem mouse_tap_runs_resolution :
  _currentSlide carousel4_subscribed = 0 /\
  truthy (endX (_drag (exec (dispatch (mousedown (Q2Qc 10)))
                         carousel4_subscribed))) = false /\
  result (dispatch (mousedown (Q2Qc 10));; dispatch mouseup)
    carousel4_subscribed = Return tt /\
  _currentSlide (exec (dispatch (mousedown (Q2Qc 10));; dispatch mouseup)
                   carousel4_subscribed) = 1 /\
  delivered (trace (exec (dispatch (mousedown (Q2Qc 10));; dispatch mouseup)
                      carousel4_subscribed))
    = delivered (trace (exec (dispatch (mousedown (Q2Qc 10)))
                          carousel4_subscribed))
        ++ [(7%nat, [1])].
Proof. repeat split; vm_compute; reflexivity. Qed.

(* ------------------------------------------------------------------ *)
(** ** Further properties: clamp and closest *)

(** X1: [Siema.clamp] on integers.  With [min <= max] the result lies in
    [[min, max]], is the value itself when the value lies inside, and the
    nearer bound otherwise; with the bounds inverted the result is [min],
    whatever the value. *)
Theorem clamp_integer_cases (value min max : Z) :
  (min <= max ->
   min <= clamp value min max <= max /\
   (min <= value <= max -> clamp value min max = value) /\
   (value < min -> clamp value min max = min) /\
   (max < value -> clamp value min max = max)) /\
  (max < min -> clamp value min max = min).
Proof. unfold clamp. cbn. lia. Qed.

(** X2: [Siema.clamp] on numbers returns NaN exactly when the value or one
    of the bounds is NaN. *)
Theorem clamp_NaN_iff (value min max : jsnum) :
  clamp value min max = NaN <-> value = NaN \/ min = NaN \/ max = NaN.
Proof.
  unfold clamp.
  destruct value, min, max; cbn;
    repeat match goal with
    | |- context [Qcltb ?a ?b] => destruct (Qcltb a b); cbn
    end;
    split; intros H; try discriminate; try reflexivity; auto;
    destruct H as [H | [H | H]]; discriminate.
Qed.

Section Closest.

Local Open Scope Qc_scope.

Ltac qc_order :=
  repeat match goal with
  | H : Qcltb _ _ = true |- _ => apply Qcltb_lt in H
  | H : Qcltb _ _ = false |- _ => apply Qcltb_ge in H
  end;
  unfold Qcle, Qclt in *;
  try apply Qc_is_canon;
  lra.

Lemma Math_abs_sub_Num (a v : Qc) :
  Math_abs (sub (Num a) (Num v)) = Num (distance a v).
Proof.
  unfold distance, Qc_abs. cbn.
  change (a + - v) with (a - v). now destruct (Qcltb (a - v) 0).
Qed.

Lemma closer_Num (v a y : Qc) :
  closer (Num v) (Num a) (Num y)
  = if Qcltb (distance y v) (distance a v) then Num y else Num a.
Proof. unfold closer. rewrite !Math_abs_sub_Num. reflexivity. Qed.

(** The reduction of [closest], started on an element [a] that is the first
    nearest one of what was visited, ends on the first nearest element of
    everything visited. *)
Lemma fold_closer_first_nearest (v : Qc) (l : list Qc) :
  forall (pre : list Qc) (a : Qc) (post : list Qc),
    (forall x, In x pre -> distance a v < distance x v) ->
    (forall x, In x post -> distance a v <= distance x v) ->
    exists (c : Qc) (pre' post' : list Qc),
      fold_left (closer (Num v)) (map Num l) (Num a) = Num c /\
      (pre ++ a :: post ++ l = pre' ++ c :: post')%list /\
      (forall x, In x pre' -> distance c v < distance x v) /\
      (forall x, In x post' -> distance c v <= distance x v).
Proof.
  induction l as [|y l IH]; intros pre a post Hpre Hpost.
  - exists a, pre, post. rewrite app_nil_r. cbn. auto.
  - cbn [map fold_left]. rewrite closer_Num.
    destruct (Qcltb (distance y v) (distance a v)) eqn:E.
    + destruct (IH (pre ++ a :: post)%list y [])
        as (c & pre' & post' & F & S & P1 & P2).
      * intros x Hx. apply in_app_or in Hx.
        destruct Hx as [Hx | [<- | Hx]].
        -- specialize (Hpre x Hx). qc_order.
        -- qc_order.
        -- specialize (Hpost x Hx). qc_order.
      * intros x [].
      * exists c, pre', post'. split; [exact F|]. split; [|auto].
        rewrite <- S. cbn [app]. rewrite <- !app_assoc. reflexivity.
    + destruct (IH pre a (post ++ [y])%list)
        as (c & pre' & post' & F & S & P1 & P2).
      * exact Hpre.
      * intros x Hx. apply in_app_or in Hx.
        destruct Hx as [Hx | [<- | []]]; [now apply Hpost | qc_order].
      * exists c, pre', post'. split; [exact F|]. split; [|auto].
        rewrite <- S. rewrite <- !app_assoc. reflexivity.
Qed.

(** X3: on a non-empty array of finite numbers and a finite value,
    [Siema.closest] returns the first of the elements nearest to the value:
    every element before it is strictly farther, every element after it is
    at least as far. *)
Theorem closest_first_nearest (v q : Qc) (qs : list Qc) :
  exists (c : Qc) (pre post : list Qc),
    closest (Num v) (map Num (q :: qs)) = Some (Num c) /\
    q :: qs = (pre ++ c :: post)%list /\
    (forall x, In x pre -> distance c v < distance x v) /\
    (forall x, In x post -> distance c v <= distance x v).
Proof.
  destruct (fold_closer_first_nearest v qs [] q [])
    as (c & pre & post & F & S & P1 & P2);
    [intros x [] | intros x [] |].
  exists c, pre, post. cbn [map closest reduce1]. rewrite F.
  cbn [app] in S. auto.
Qed.

(** X4: when the value is NaN every comparison of the reduction is false,
    so [Siema.closest] returns the first element of the array. *)
Theorem closest_of_NaN_is_first (x : jsnum) (array : list jsnum) :
  closest NaN (x :: array) = Some x.
Proof.
  cbn [closest reduce1]. f_equal. revert x.
  induction array as [|y l IH]; intros x; [reflexivity|].
  cbn [fold_left].
  assert (E : closer NaN x y = x).
  { unfold closer. rewrite sub_NaN_r. reflexivity. }
  rewrite E. apply IH.
Qed.

End Closest.

(* ------------------------------------------------------------------ *)
(** ** Further properties: the translation calculator *)

Section CalculatorMore.

Local Open Scope Qc_scope.

Ltac qc_order :=
  repeat match goal with
  | H : Qcltb _ _ = true |- _ => apply Qcltb_lt in H
  | H : Qcltb _ _ = false |- _ => apply Qcltb_ge in H
  end;
  unfold Qcle, Qclt in *;
  try apply Qc_is_canon;
  lra.

Lemma get_out_of_range {A : Type} (l : list A) (i : Z) :
  (i < 0 \/ Z.of_nat (length l) <= i)%Z -> get l i = None.
Proof.
  intros H. unfold get. destruct (i <? 0)%Z eqn:E; [reflexivity|].
  apply Z.ltb_ge in E. apply nth_error_None. lia.
Qed.

(** X5: on measurements that are numbers, the calculator returns NaN
    exactly for the indices that designate no item (negative, or at or past
    the item count), in both clamping modes. *)
Theorem calculateTranslation_NaN_iff_no_item
  (cw fw : Qc) (ws : list Qc) (index : Z) (stick : bool) :
  calculateTranslation_of (Num cw) (Num fw) (map Num ws) index stick = NaN
  <-> (index < 0 \/ Z.of_nat (length ws) <= index)%Z.
Proof.
  split.
  - intros H.
    destruct (Z_lt_dec index 0) as [|P]; [now left|].
    destruct (Z_le_dec (Z.of_nat (length ws)) index) as [|Q]; [now right|].
    exfalso.
    assert (R : (0 <= index < Z.of_nat (length ws))%Z) by lia.
    destruct stick.
    + rewrite (calculateTranslation_clamped cw fw ws index R) in H.
      discriminate.
    + rewrite (calculateTranslation_unclamped cw fw ws index R) in H.
      discriminate.
  - intros H. apply calculateTranslation_no_width.
    apply get_out_of_range. now rewrite length_map.
Qed.

(** X6: with [stickToEdges] and a frame no wider than the container, the
    calculator returns 0 for every item: content that fits is never
    shifted. *)
Theorem calculateTranslation_zero_when_content_fits
  (cw fw : Qc) (ws : list Qc) (index : Z) :
  (0 <= index < Z.of_nat (length ws))%Z ->
  fw <= cw ->
  calculateTranslation_of (Num cw) (Num fw) (map Num ws) index true = zero.
Proof.
  intros R F. rewrite (calculateTranslation_clamped cw fw ws index R).
  unfold zero. f_equal.
  assert (L : Qc_min 0 (cw - fw) = 0).
  { unfold Qc_min. destruct (Qcltb (cw - fw) 0) eqn:E; [|reflexivity].
    apply Qcltb_lt in E. exfalso.
    apply (Qcle_not_lt _ _ F). apply Qclt_minus_iff.
    apply Qclt_minus_iff in E.
    replace (cw + - fw) with (cw - fw) by reflexivity.
    replace (0 + - (cw - fw)) with (fw + - cw) in E by ring.
    exact E. }
  rewrite L.
  pose proof (clamp_into_bounds 0 0
                (centred_offset cw ws (Z.to_nat index)) (Qcle_refl 0))
    as [B1 B2].
  now apply Qcle_antisym.
Qed.

(** Witness for X6: index 2 of four items of width 50, container and frame
    of width 200. *)
Lemma calculateTranslation_zero_when_content_fits_witness :
  calculateTranslation_of (Num (Q2Qc 200)) (Num (Q2Qc 200))
    (map Num [Q2Qc 50; Q2Qc 50; Q2Qc 50; Q2Qc 50]) 2 true = zero.
Proof.
  apply (calculateTranslation_zero_when_content_fits
           (Q2Qc 200) (Q2Qc 200) [Q2Qc 50; Q2Qc 50; Q2Qc 50; Q2Qc 50] 2).
  - simpl. lia.
  - vm_compute. discriminate.
Defined.

Lemma sum_before_succ (ws : list Qc) (k : nat) :
  sum_before ws (S k) = sum_before ws k + nth k ws 0.
Proof.
  revert ws. induction k as [|k IH]; intros ws.
  - destruct ws as [|w ws]; cbn [sum_before nth]; ring.
  - destruct ws as [|w ws].
    + cbn [sum_before nth]. ring.
    + change (sum_before (w :: ws) (S (S k))) with (w + sum_before ws (S k)).
      rewrite IH. cbn [sum_before nth]. ring.
Qed.

Lemma half_plus (a b : Qc) : half a + half b = half (a + b).
Proof.
  unfold half.
  assert (T : Q2Qc (inject_Z 2) <> 0) by discriminate.
  revert T. generalize (Q2Qc (inject_Z 2)). intros t T. now field.
Qed.

Lemma half_double (a : Qc) : half a + half a = a.
Proof.
  unfold half, Qcdiv. rewrite <- Qcmult_plus_distr_r.
  replace (/ Q2Qc (inject_Z 2) + / Q2Qc (inject_Z 2)) with 1
    by (apply Qc_is_canon; reflexivity).
  ring.
Qed.

(** X7: the unclamped offsets of two neighbouring items differ by half the
    sum of their widths: going one item forward moves the frame back by the
    distance between the two item centres. *)
Theorem neighbouring_offsets_differ_by_half_widths
  (cw fw : Qc) (ws : list Qc) (index : Z) :
  (0 <= index)%Z -> (index + 1 < Z.of_nat (length ws))%Z ->
  exists a b : Qc,
    calculateTranslation_of (Num cw) (Num fw) (map Num ws) index false
      = Num a /\
    calculateTranslation_of (Num cw) (Num fw) (map Num ws) (index + 1) false
      = Num b /\
    a - b = half (nth (Z.to_nat index) ws 0
                  + nth (S (Z.to_nat index)) ws 0).
Proof.
  intros P Q.
  exists (centred_offset cw ws (Z.to_nat index)),
         (centred_offset cw ws (Z.to_nat (index + 1))).
  split; [apply calculateTranslation_unclamped; lia|].
  split; [apply calculateTranslation_unclamped; lia|].
  replace (Z.to_nat (index + 1)) with (S (Z.to_nat index)) by lia.
  unfold centred_offset. rewrite sum_before_succ, <- half_plus.
  pose proof (half_double (nth (Z.to_nat index) ws 0)) as D.
  set (hk := half (nth (Z.to_nat index) ws 0)) in *.
  rewrite <- D. ring.
Qed.

(** Witness for X7: items 1 and 2 of widths 10, 30, 50 in a container of
    width 200. *)
Lemma neighbouring_offsets_differ_by_half_widths_witness :
  exists a b : Qc,
    calculateTranslation_of (Num (Q2Qc 200)) (Num (Q2Qc 90))
      (map Num [Q2Qc 10; Q2Qc 30; Q2Qc 50]) 1 false = Num a /\
    calculateTranslation_of (Num (Q2Qc 200)) (Num (Q2Qc 90))
      (map Num [Q2Qc 10; Q2Qc 30; Q2Qc 50]) (1 + 1) false = Num b /\
    a - b = half (nth (Z.to_nat 1) [Q2Qc 10; Q2Qc 30; Q2Qc 50] 0
                  + nth (S (Z.to_nat 1)) [Q2Qc 10; Q2Qc 30; Q2Qc 50] 0).
Proof.
  apply (neighbouring_offsets_differ_by_half_widths
           (Q2Qc 200) (Q2Qc 90) [Q2Qc 10; Q2Qc 30; Q2Qc 50] 1).
  - lia.
  - simpl. lia.
Defined.

End CalculatorMore.

(* ------------------------------------------------------------------ *)
(** ** Further properties: navigation *)

Lemma goTo_fields (s : Siema) (index : Z) :
  _innerElements (exec (goTo index) s) = _innerElements s /\
  _innerSlides (exec (goTo index) s) = _innerSlides s /\
  _config (exec (goTo index) s) = _config s /\
  surface (exec (goTo index) s) = surface s.
Proof.
  unfold exec. rewrite goTo_run. cbv zeta.
  destruct (clamp index 0 (itemCount s) =? _currentSlide s).
  - rewrite _setCurrentSlide_run. cbn. auto.
  - rewrite _slideToCurrent_run, _setCurrentSlide_run. cbn. auto.
Qed.

Lemma goTo_translation (s : Siema) (index : Z) :
  clamp index 0 (itemCount s) <> _currentSlide s ->
  _currentTranslation (exec (goTo index) s)
  = translation_for s (clamp index 0 (itemCount s))
      (stickToEdges (_config s)).
Proof.
  intros N. unfold exec. rewrite goTo_run. cbv zeta.
  destruct (clamp index 0 (itemCount s) =? _currentSlide s) eqn:E;
    [apply Z.eqb_eq in E; contradiction|].
  rewrite _slideToCurrent_run, _setCurrentSlide_run. reflexivity.
Qed.

Lemma moveBy_run (s : Siema) (k : Z) :
  moveBy k s
  = goTo (clamp (_currentSlide s + k) 0 (length_of (_innerSlides s))) s.
Proof. reflexivity. Qed.

Lemma clamp_clamp (x n : Z) : clamp (clamp x 0 n) 0 n = clamp x 0 n.
Proof. unfold clamp. cbn. lia. Qed.

Lemma moveBy_state (s : Siema) (k : Z) :
  length (_innerSlides s) = length (_innerElements s) ->
  result (moveBy k) s = Return tt /\
  _currentSlide (exec (moveBy k) s)
    = clamp (_currentSlide s + k) 0 (itemCount s) /\
  _innerElements (exec (moveBy k) s) = _innerElements s /\
  _innerSlides (exec (moveBy k) s) = _innerSlides s.
Proof.
  intros W. unfold result, exec. rewrite moveBy_run.
  unfold length_of. rewrite W. fold (length_of (_innerElements s)).
  fold (itemCount s).
  destruct (goTo_state s (clamp (_currentSlide s + k) 0 (itemCount s)))
    as (R & C & _).
  destruct (goTo_fields s (clamp (_currentSlide s + k) 0 (itemCount s)))
    as (F1 & F2 & _).
  unfold result, exec in *. rewrite clamp_clamp in C. auto.
Qed.








(* ------------------------------------------------------------------ *)
(** ** Further properties: changing the item set *)

Lemma splice_insert_at_front {A : Type} (l : list A) (x : A) :
  splice_insert l 0 x = x :: l.
Proof.
  unfold splice_insert. rewrite relative_index_in_range by lia. reflexivity.
Qed.

Lemma splice_insert_past_end {A : Type} (l : list A) (x : A) :
  splice_insert l (Z.of_nat (length l) + 1) x = l ++ [x].
Proof.
  unfold splice_insert, relative_index.
  destruct (Z.of_nat (length l) + 1 <? 0) eqn:E;
    [apply Z.ltb_lt in E; lia|].
  rewrite Z.min_r by lia. rewrite Nat2Z.id.
  now rewrite firstn_all, skipn_all.
Qed.

Lemma insert_translation (s : Siema) (item : Item) (index : Z) :
  0 <= index <= itemCount s + 1 ->
  ~ In item (_innerElements s) ->
  _currentTranslation (exec (insert item index) s) = zero /\
  _lastArgs (_eventRegistry (exec (insert item index) s))
    = [if index <=? _currentSlide s
       then _currentSlide s + 1 else _currentSlide s] /\
  _listeners (_eventRegistry (exec (insert item index) s))
    = _listeners (_eventRegistry s).
Proof.
  intros H N. unfold exec. rewrite insert_run.
  destruct ((index <? 0) || (index >? itemCount s + 1)) eqn:E.
  { apply insert_range_test in E. lia. }
  destruct (negb (indexOf Nat.eqb (_innerElements s) item =? -1)) eqn:D.
  { apply insert_same_test in D. contradiction. }
  rewrite _setCurrentSlide_run. cbn [snd].
  match goal with |- context [_resetFrameSlides ?t] =>
    destruct (_resetFrameSlides_state t) as (_ & _ & _ & E4 & E5)
  end.
  unfold exec in E4, E5. rewrite E4, E5. cbn. auto.
Qed.

Lemma remove_translation (s : Siema) (index : Z) :
  0 <= index < itemCount s ->
  _currentTranslation (exec (remove index) s) = zero /\
  _lastArgs (_eventRegistry (exec (remove index) s))
    = [if index <=? _currentSlide s
       then _currentSlide s - 1 else _currentSlide s] /\
  _listeners (_eventRegistry (exec (remove index) s))
    = _listeners (_eventRegistry s).
Proof.
  intros H. unfold exec. rewrite remove_run.
  destruct ((index <? 0) || (index >=? itemCount s)) eqn:E.
  { apply remove_range_test in E. lia. }
  rewrite _setCurrentSlide_run. cbn [snd].
  match goal with |- context [_resetFrameSlides ?t] =>
    destruct (_resetFrameSlides_state t) as (_ & _ & _ & E4 & E5)
  end.
  unfold exec in E4, E5. rewrite E4, E5. cbn. auto.
Qed.





(** X14: a successful [insert] rebuilds the frame at translation 0 and does
    not slide to the current item: afterwards the cached translation is 0
    whatever CurrentIndex is, and the new CurrentIndex has been published. *)
Theorem insert_resets_translation (s : Siema) (item : Item) (index : Z) :
  0 <= index <= itemCount s + 1 ->
  ~ In item (_innerElements s) ->
  _currentTranslation (exec (insert item index) s) = zero /\
  _lastArgs (_eventRegistry (exec (insert item index) s))
    = [_currentSlide (exec (insert item index) s)].
Proof.
  intros H N. destruct (insert_translation s item index H N) as (T & L & _).
  destruct (insert_ok s item index H N) as (_ & _ & _ & C).
  rewrite T, L, C. auto.
Qed.

(** Witness for X14: item 9 inserted at index 1 of the four-item carousel. *)
Lemma insert_resets_translation_witness :
  _currentTranslation (exec (insert 9%nat 1) carousel4) = zero /\
  _lastArgs (_eventRegistry (exec (insert 9%nat 1) carousel4))
    = [_currentSlide (exec (insert 9%nat 1) carousel4)].
Proof.
  apply (insert_resets_translation carousel4 9%nat 1).
  - vm_compute. split; congruence.
  - vm_compute. intuition discriminate.
Defined.

(** X15: a successful [remove] likewise rebuilds the frame at translation 0
    without sliding to the current item, and publishes the new
    CurrentIndex; the item set loses exactly the element at the index. *)
Theorem remove_resets_translation (s : Siema) (index : Z) :
  0 <= index < itemCount s ->
  _currentTranslation (exec (remove index) s) = zero /\
  _lastArgs (_eventRegistry (exec (remove index) s))
    = [_currentSlide (exec (remove index) s)] /\
  _innerElements (exec (remove index) s)
    = firstn (Z.to_nat index) (_innerElements s)
      ++ skipn (S (Z.to_nat index)) (_innerElements s).
Proof.
  intros H. destruct (remove_translation s index H) as (T & L & _).
  destruct (remove_ok s index H) as (_ & E & _ & C).
  rewrite T, L, C, E. split; [reflexivity|]. split; [reflexivity|].
  unfold splice_remove1. rewrite relative_index_in_range; [reflexivity|].
  unfold itemCount, length_of in H. lia.
Qed.

(** Witness for X15: index 1 removed from the four-item carousel. *)
Lemma remove_resets_translation_witness :
  _currentTranslation (exec (remove 1) carousel4) = zero /\
  _lastArgs (_eventRegistry (exec (remove 1) carousel4))
    = [_currentSlide (exec (remove 1) carousel4)] /\
  _innerElements (exec (remove 1) carousel4)
    = firstn (Z.to_nat 1) (_innerElements carousel4)
      ++ skipn (S (Z.to_nat 1)) (_innerElements carousel4).
Proof.
  apply (remove_resets_translation carousel4 1).
  vm_compute. split; congruence.
Defined.

(* ------------------------------------------------------------------ *)
(** ** Further properties: what every reachable state satisfies *)

Lemma steady_ret {A : Type} (a : A) : steady (ret a).
Proof. intros s H. exact H. Qed.

Lemma steady_throw {A : Type} (e : exn) : steady (@throw A e).
Proof. intros s H. exact H. Qed.

Lemma steady_gets {A : Type} (f : Siema -> A) : steady (gets f).
Proof. intros s H. exact H. Qed.

Lemma steady_bind {A B : Type} (m : M A) (k : A -> M B) :
  steady m -> (forall a, steady (k a)) -> steady (bind m k).
Proof.
  intros Hm Hk s H. specialize (Hm s H). unfold exec, bind in *.
  destruct (m s) as [[a | e] s']; cbn [snd] in *.
  - apply (Hk a s' Hm).
  - exact Hm.
Qed.

Lemma steady_when (b : bool) (m : M unit) : steady m -> steady (when b m).
Proof. intros H. destruct b; [exact H | apply steady_ret]. Qed.

Lemma steady_set_pointerDown (b : bool) : steady (modify (set_pointerDown b)).
Proof. intros s H. exact H. Qed.

Lemma steady_update_drag (f : Drag -> Drag) : steady (update_drag f).
Proof. intros s H. exact H. Qed.

Lemma steady_set_drag (d : Drag) : steady (modify (set_drag d)).
Proof. intros s H. exact H. Qed.

Lemma steady_emit (e : effect) : steady (emit e).
Proof. intros s H. exact H. Qed.

Lemma steady_set_currentTranslation (x : jsnum) :
  steady (modify (set_currentTranslation x)).
Proof. intros s H. exact H. Qed.

Lemma steady__calculateTranslation (index : Z) (stick : bool) :
  steady (_calculateTranslation index stick).
Proof. intros s H. exact H. Qed.

Create HintDb steady.

#[local] Hint Resolve steady_ret steady_throw steady_gets steady_when
  steady_set_pointerDown steady_update_drag steady_set_drag steady_emit
  steady_set_currentTranslation steady__calculateTranslation : steady.

Ltac steady_steps :=
  repeat first
    [ solve [auto with steady]
    | apply steady_when
    | apply steady_bind; [|intros ?] ].

Lemma steady__setTranslation (x : jsnum) : steady (_setTranslation x).
Proof. unfold _setTranslation. steady_steps. Qed.

Lemma steady__setTransition (d : Z) (e : string) :
  steady (_setTransition d e).
Proof. unfold _setTransition. steady_steps. Qed.

Lemma steady__setCursor (c : cursor) : steady (_setCursor c).
Proof. unfold _setCursor. steady_steps. Qed.

Lemma steady__clearDrag : steady _clearDrag.
Proof. unfold _clearDrag. steady_steps. Qed.

#[local] Hint Resolve steady__setTranslation steady__setTransition
  steady__setCursor steady__clearDrag : steady.

Lemma steady__slideToCurrent : steady _slideToCurrent.
Proof. unfold _slideToCurrent, _slideToIndex. steady_steps. Qed.

(** Publishing an index between -1 and the item count keeps the state
    consistent. *)
Lemma consistent_setCurrentSlide (s : Siema) (i : Z) :
  consistent s -> -1 <= i <= itemCount s ->
  consistent (exec (_setCurrentSlide i) s).
Proof.
  intros (S & _ & _) B. unfold exec. rewrite _setCurrentSlide_run.
  repeat split; cbn; auto; unfold itemCount in *; cbn; lia.
Qed.

Lemma steady__updateAfterDrag : steady _updateAfterDrag.
Proof.
  intros s H. unfold exec.
  destruct (_updateAfterDrag_cases s) as [[_ E] | [i [B E]]]; rewrite E.
  - exact H.
  - apply steady__slideToCurrent.
    apply consistent_setCurrentSlide; [exact H|].
    destruct H as (S & _ & _). rewrite S in B.
    unfold itemCount. lia.
Qed.

#[local] Hint Resolve steady__slideToCurrent steady__updateAfterDrag : steady.

Lemma steady_handler (e : event) : steady (handler e).
Proof.
  destruct e; cbn [handler];
    unfold _resizeHandler, _touchstartHandler, _touchmoveHandler,
      _touchendHandler, _mousedownHandler, _mousemoveHandler,
      _mouseupHandler, _mouseleaveHandler;
    steady_steps.
Qed.

Lemma steady_dispatch (e : event) : steady (dispatch e).
Proof.
  unfold dispatch. apply steady_bind; [apply steady_gets|]. intros cfg.
  destruct e; try apply steady_when; apply steady_handler.
Qed.

(** The two ways an [insert] and a [remove] can go. *)
Lemma insert_remove_outcomes (s : Siema) (item : Item) (index : Z) :
  (exec (insert item index) s = s \/
   (0 <= index <= itemCount s + 1 /\ ~ In item (_innerElements s))) /\
  (exec (remove index) s = s \/ 0 <= index < itemCount s).
Proof.
  split.
  - unfold exec. rewrite insert_run.
    destruct ((index <? 0) || (index >? itemCount s + 1)) eqn:E;
      [now left|].
    destruct (negb (indexOf Nat.eqb (_innerElements s) item =? -1)) eqn:D;
      [now left|].
    right. split.
    + apply orb_false_iff in E. destruct E as [E1 E2].
      apply Z.ltb_ge in E1. rewrite Z.gtb_ltb in E2.
      apply Z.ltb_ge in E2. lia.
    + intros I. apply insert_same_test in I. congruence.
  - unfold exec. rewrite remove_run.
    destruct ((index <? 0) || (index >=? itemCount s)) eqn:E;
      [now left|].
    right. apply orb_false_iff in E. destruct E as [E1 E2].
    apply Z.ltb_ge in E1. rewrite Z.geb_leb in E2.
    apply Z.leb_gt in E2. lia.
Qed.

Lemma steady_goTo (index : Z) : steady (goTo index).
Proof.
  intros s (S & L & B).
  destruct (goTo_state s index) as (_ & C & L').
  destruct (goTo_fields s index) as (F1 & F2 & _).
  pose proof (goTo_in_bounds s index) as B'.
  repeat split.
  - now rewrite F1, F2.
  - now rewrite L', C.
  - lia.
  - unfold itemCount in *. rewrite F1. lia.
Qed.

Lemma steady_moveBy (k : Z) : steady (moveBy k).
Proof. intros s H. unfold exec. rewrite moveBy_run. now apply steady_goTo. Qed.

Lemma steady_insert (item : Item) (index : Z) : steady (insert item index).
Proof.
  intros s H.
  destruct (insert_remove_outcomes s item index) as [[U | [R N]] _].
  - now rewrite U.
  - destruct H as (S & L & B).
    destruct (insert_ok s item index R N) as (_ & E & E' & C).
    destruct (insert_translation s item index R N) as (_ & L' & _).
    pose proof (itemCount_after_insert s item index R N) as K.
    repeat split.
    + now rewrite E, E'.
    + now rewrite L', C.
    + rewrite C. destruct (index <=? _currentSlide s); lia.
    + rewrite C, K. destruct (index <=? _currentSlide s); lia.
Qed.

Lemma steady_remove (index : Z) : steady (remove index).
Proof.
  intros s H.
  destruct (insert_remove_outcomes s 0%nat index) as [_ [U | R]].
  - now rewrite U.
  - destruct H as (S & L & B).
    destruct (remove_ok s index R) as (_ & E & E' & C).
    destruct (remove_translation s index R) as (_ & L' & _).
    assert (K : itemCount (exec (remove index) s) = itemCount s - 1).
    { unfold itemCount, length_of. rewrite E.
      apply splice_remove1_length. exact R. }
    repeat split.
    + now rewrite E, E'.
    + now rewrite L', C.
    + rewrite C. destruct (index <=? _currentSlide s) eqn:T;
        [apply Z.leb_le in T|]; lia.
    + rewrite C, K. destruct (index <=? _currentSlide s) eqn:T;
        [apply Z.leb_le in T | apply Z.leb_gt in T]; lia.
Qed.

Lemma steady_run_call (c : call) : steady (run_call c).
Proof.
  destruct c; cbn [run_call].
  - apply steady_goTo.
  - apply steady_moveBy.
  - apply steady_moveBy.
  - apply steady_moveBy.
  - apply steady_insert.
  - apply steady_remove.
  - apply steady_insert.
  - intros s H. apply (steady_insert item (itemCount s + 1) s H).
  - intros s H. exact H.
  - apply steady_dispatch.
Qed.

(** With subscribers that return: in every state an instance goes through
    (after construction and after any sequence of public calls, events and
    layout changes) the slide list mirrors the element list, the payload
    cached for late subscribers is the current index, and CurrentIndex lies
    between -1 and itemCount. *)
Theorem reachable_states_are_consistent (s : Siema) :
  reachable s -> consistent s.
Proof.
  induction 1 as [options children surf s K | s c _ IH | s surf _ IH].
  - destruct (constructor_body_run options children surf) as (R & E & C & G).
    unfold constructor, result, exec in *.
    destruct (constructor_body (blank_instance options children surf))
      as [o t] eqn:B.
    cbn [fst snd] in *. subst o. injection K as <-.
    assert (S : _innerSlides t = _innerElements t).
    { pose proof (f_equal snd B) as B'. cbn [snd] in B'. rewrite <- B'.
      unfold constructor_body, _resetFrameSlides, _attachEvents. run.
      destruct (or_default (o_draggable options) true) eqn:D;
        cbn; rewrite ?D; cbn; now rewrite map_id. }
    repeat split.
    + exact S.
    + now rewrite G, C.
    + lia.
    + rewrite C. unfold itemCount, length_of. lia.
  - now apply steady_run_call.
  - exact IH.
Qed.

(** An instance of it: the four-item carousel after [remove 0], a mouse
    press and release, and [next()]. *)
Lemma reachable_states_are_consistent_witness :
  consistent
    (exec (run_call (call_next None))
       (exec (run_call (call_event mouseup))
          (exec (run_call (call_event (mousedown (Q2Qc 10))))
             (exec (run_call (call_remove 0)) carousel4)))).
Proof.
  apply reachable_states_are_consistent.
  do 4 apply reachable_call.
  apply (reachable_new no_options [1; 2; 3; 4]%nat (uniform_surface 200 50)).
  vm_compute. reflexivity.
Defined.

(* ------------------------------------------------------------------ *)
(** ** Further properties: the notification hub *)

Lemma Set_add_In (l : list Callback) (x y : Callback) :
  In y (Set_add_ l x) <-> In y l \/ y = x.
Proof.
  unfold Set_add_. destruct (Set_has_ l x) eqn:E.
  - unfold Set_has_ in E. apply existsb_exists in E.
    destruct E as [z [Hz E]]. apply Nat.eqb_eq in E. subst z.
    split; [auto | intros [H | ->]; assumption].
  - rewrite in_app_iff. cbn. intuition.
Qed.

Lemma Set_add_NoDup (l : list Callback) (x : Callback) :
  NoDup l -> NoDup (Set_add_ l x).
Proof.
  intros H. unfold Set_add_. destruct (Set_has_ l x) eqn:E; [exact H|].
  assert (N : ~ In x l).
  { intros I. unfold Set_has_ in E.
    assert (T : existsb (Nat.eqb x) l = true).
    { apply existsb_exists. exists x. split; [exact I|].
      apply Nat.eqb_refl. }
    congruence. }
  apply NoDup_app; [exact H | repeat constructor; intros [] | ].
  intros y Hy [<- | []]. contradiction.
Qed.

Lemma Set_add_fresh (l : list Callback) (x : Callback) :
  ~ In x l -> Set_add_ l x = l ++ [x].
Proof.
  intros N. unfold Set_add_. destruct (Set_has_ l x) eqn:E; [|reflexivity].
  unfold Set_has_ in E. apply existsb_exists in E.
  destruct E as [z [Hz E]]. apply Nat.eqb_eq in E. subst z. contradiction.
Qed.

Lemma listen_all_state (callbacks : list Callback) :
  forall r : CachedEventRegistry,
    NoDup (_listeners r) ->
    NoDup (_listeners (listen_all callbacks r)) /\
    (forall y, In y (_listeners (listen_all callbacks r))
               <-> In y (_listeners r) \/ In y callbacks) /\
    _lastArgs (listen_all callbacks r) = _lastArgs r /\
    (NoDup (_listeners r ++ callbacks) ->
     _listeners (listen_all callbacks r) = _listeners r ++ callbacks).
Proof.
  induction callbacks as [|c rest IH]; intros r H.
  - cbn. rewrite app_nil_r. repeat split; auto. intros [I | []]. exact I.
  - cbn [listen_all Registry.listen fst].
    set (r1 := {| _listeners := Set_add_ (_listeners r) c;
                  _lastArgs := _lastArgs r |}).
    destruct (IH r1 (Set_add_NoDup _ c H)) as (N & I & L & O).
    split; [exact N|]. split; [|split; [exact L|]].
    + intros y. rewrite I. cbn [_listeners r1]. rewrite Set_add_In.
      cbn [In]. intuition.
    + intros D. rewrite O; cbn [_listeners r1].
      * rewrite Set_add_fresh; [now rewrite <- app_assoc|].
        intros J. apply NoDup_remove_2 in D. apply D.
        apply in_or_app. now left.
      * rewrite Set_add_fresh; [now rewrite <- app_assoc|].
        intros J. apply NoDup_remove_2 in D. apply D.
        apply in_or_app. now left.
Qed.

Lemma delivered_notifications (ls : list Callback) (args : list Z) :
  delivered (map (fun l => Deliver l args) ls) = map (fun l => (l, args)) ls.
Proof.
  induction ls as [|l ls IH]; [reflexivity|].
  cbn [map delivered flat_map app]. f_equal. exact IH.
Qed.


(** What [listen] replays is the arguments of the last [notify]: after
    [notify(args)] a new listener receives [args] once during [listen] when
    [args] is not empty and nothing when it is empty ([notify()] empties the
    cache); on a new registry it receives the constructor's arguments under
    the same condition. *)
Theorem listen_replays_last_notify
  (r : CachedEventRegistry) (initialArgs args : list Z)
  (callback : Callback) :
  snd (fst (Registry.listen callback (fst (Registry.notify args r))))
    = match args with
      | [] => []
      | _ :: _ => [Deliver callback args]
      end /\
  snd (fst (Registry.listen callback (Registry.new initialArgs)))
    = match initialArgs with
      | [] => []
      | _ :: _ => [Deliver callback initialArgs]
      end.
Proof. split; [now destruct args | now destruct initialArgs]. Qed.

(* ------------------------------------------------------------------ *)
(** ** Further properties: nearest-slide resolution *)

Section Resolution.

Local Open Scope Qc_scope.

Lemma indexOf_from_split {A : Type} (eqb : A -> A -> bool) (c : A)
  (pre post : list A) (i : Z) :
  (forall x, In x pre -> eqb x c = false) ->
  eqb c c = true ->
  indexOf_from eqb c (pre ++ c :: post) i = (i + Z.of_nat (length pre))%Z.
Proof.
  revert i. induction pre as [|x pre IH]; intros i H R.
  - cbn. rewrite R. lia.
  - cbn [app indexOf_from]. rewrite (H x (or_introl eq_refl)).
    rewrite IH; [cbn [length]; lia | | exact R].
    intros y Hy. apply H. now right.
Qed.

Lemma get_candidate_offset (s : Siema) (j : Z) :
  (0 <= j < length_of (_innerSlides s))%Z ->
  get (candidate_offsets s) j = Some (translation_for s j false).
Proof.
  intros H. unfold length_of in H. unfold get, candidate_offsets, indices.
  destruct (j <? 0)%Z eqn:E; [apply Z.ltb_lt in E; lia|].
  rewrite !nth_error_map.
  rewrite (nth_error_nth' _ 0%nat) by (rewrite length_seq; lia).
  rewrite seq_nth by lia. cbn. now rewrite Z2Nat.id by lia.
Qed.

Lemma distance_lt_neq (c x v : Qc) :
  distance c v < distance x v -> Qceqb x c = false.
Proof.
  intros H. destruct (Qceqb x c) eqn:E; [|reflexivity].
  apply Qceqb_eq in E. subst x. exfalso.
  exact (Qclt_not_eq _ _ H eq_refl).
Qed.


End Resolution.


(* ------------------------------------------------------------------ *)
(** ** Further properties: gestures *)

Lemma bind_ret {A B : Type} (a : A) (k : A -> M B) (s : Siema) :
  bind (ret a) k s = k a s.
Proof. reflexivity. Qed.

Lemma _touchmoveHandler_decided (s : Siema) (pageX pageY : Qc) (b : bool) :
  letItGo (_drag s) = Some b ->
  _touchmoveHandler pageX pageY s =
  when (_pointerDown s && b)
    (update_drag (with_endX (Num pageX));;
     cfg <- gets _config;;
     _setTransition 0 (easing cfg);;
     cs <- gets _currentSlide;;
     t <- _calculateTranslation cs (stickToEdges cfg);;
     d <- gets _drag;;
     _setTranslation (sub t (sub (startX d) (endX d)))) s.
Proof.
  intros H. unfold _touchmoveHandler.
  rewrite bind_gets, H. cbn [when].
  rewrite bind_ret, !bind_gets, H. reflexivity.
Qed.

(** X19: the axis of a touch gesture is decided once.  When the drag record
    already holds a decision, [_touchmoveHandler] keeps it; when the decision
    is "vertical", or the pointer is not down, the handler changes nothing at
    all. *)
Theorem touchmove_keeps_axis_decision
  (s : Siema) (pageX pageY : Qc) (b : bool) :
  letItGo (_drag s) = Some b ->
  result (_touchmoveHandler pageX pageY) s = Return tt /\
  letItGo (_drag (exec (_touchmoveHandler pageX pageY) s)) = Some b /\
  (b = false \/ _pointerDown s = false ->
   exec (_touchmoveHandler pageX pageY) s = s).
Proof.
  intros H. unfold result, exec.
  rewrite (_touchmoveHandler_decided s pageX pageY b H).
  destruct (_pointerDown s) eqn:P, b; cbn [andb when].
  - cbn. rewrite H. repeat split; auto. intros [?|?]; discriminate.
  - cbn. auto.
  - cbn. auto.
  - cbn. auto.
Qed.

(** Witness for X19: a second move of a touch gesture on the four-item
    carousel. *)
Lemma touchmove_keeps_axis_decision_witness :
  result (_touchmoveHandler (Q2Qc 30) (Q2Qc 0))
    (exec (_touchstartHandler (Q2Qc 10) (Q2Qc 0);;
           _touchmoveHandler (Q2Qc 20) (Q2Qc 0)) carousel4) = Return tt /\
  letItGo (_drag (exec (_touchmoveHandler (Q2Qc 30) (Q2Qc 0))
    (exec (_touchstartHandler (Q2Qc 10) (Q2Qc 0);;
           _touchmoveHandler (Q2Qc 20) (Q2Qc 0)) carousel4))) = Some true /\
  (true = false \/
   _pointerDown (exec (_touchstartHandler (Q2Qc 10) (Q2Qc 0);;
                       _touchmoveHandler (Q2Qc 20) (Q2Qc 0)) carousel4)
     = false ->
   exec (_touchmoveHandler (Q2Qc 30) (Q2Qc 0))
     (exec (_touchstartHandler (Q2Qc 10) (Q2Qc 0);;
            _touchmoveHandler (Q2Qc 20) (Q2Qc 0)) carousel4)
   = exec (_touchstartHandler (Q2Qc 10) (Q2Qc 0);;
           _touchmoveHandler (Q2Qc 20) (Q2Qc 0)) carousel4).
Proof.
  apply (touchmove_keeps_axis_decision
           (exec (_touchstartHandler (Q2Qc 10) (Q2Qc 0);;
                  _touchmoveHandler (Q2Qc 20) (Q2Qc 0)) carousel4)
           (Q2Qc 30) (Q2Qc 0) true).
  vm_compute. reflexivity.
Defined.

Section Drag.

Local Open Scope Qc_scope.

(** X20: the first move of a touch gesture, with the pointer down and a
    horizontal displacement from the start strictly larger than the vertical
    one, locks the gesture to horizontal, records the end position, switches
    the transition off and applies the calculator's offset of the current
    item, clamped as configured, shifted by the horizontal displacement;
    CurrentIndex and the registry are untouched. *)
Theorem first_horizontal_touchmove_drags
  (s : Siema) (sx sy pageX pageY : Qc) :
  letItGo (_drag s) = None ->
  _pointerDown s = true ->
  startX (_drag s) = Num sx ->
  startY (_drag s) = Num sy ->
  distance sy pageY < distance sx pageX ->
  result (_touchmoveHandler pageX pageY) s = Return tt /\
  letItGo (_drag (exec (_touchmoveHandler pageX pageY) s)) = Some true /\
  endX (_drag (exec (_touchmoveHandler pageX pageY) s)) = Num pageX /\
  _currentTranslation (exec (_touchmoveHandler pageX pageY) s)
    = sub (translation_for s (_currentSlide s) (stickToEdges (_config s)))
          (Num (sx - pageX)) /\
  _currentSlide (exec (_touchmoveHandler pageX pageY) s) = _currentSlide s /\
  _eventRegistry (exec (_touchmoveHandler pageX pageY) s)
    = _eventRegistry s /\
  trace (exec (_touchmoveHandler pageX pageY) s)
    = trace s
      ++ [ApplyTransition 0 (easing (_config s));
          ApplyTransform
            (sub (translation_for s (_currentSlide s)
                    (stickToEdges (_config s)))
                 (Num (sx - pageX)))].
Proof.
  intros G P X Y D. apply Qcltb_lt in D.
  assert (Lk : ltb (Math_abs (sub (startY (_drag s)) (Num pageY)))
                   (Math_abs (sub (startX (_drag s)) (Num pageX))) = true).
  { rewrite X, Y, !Math_abs_sub_Num. exact D. }
  unfold _touchmoveHandler, update_drag, _setTransition, _setTranslation,
    _calculateTranslation.
  run. rewrite G. cbn. rewrite Lk, P. cbn. rewrite X.
  rewrite <- app_assoc. repeat split; reflexivity.
Qed.

(** Witness for X20: touch start at (10, 0) and a move to (40, 5) on the
    four-item carousel. *)
Lemma first_horizontal_touchmove_drags_witness :
  result (_touchmoveHandler (Q2Qc 40) (Q2Qc 5))
    (exec (_touchstartHandler (Q2Qc 10) (Q2Qc 0)) carousel4) = Return tt /\
  letItGo (_drag (exec (_touchmoveHandler (Q2Qc 40) (Q2Qc 5))
    (exec (_touchstartHandler (Q2Qc 10) (Q2Qc 0)) carousel4))) = Some true.
Proof.
  destruct (first_horizontal_touchmove_drags
              (exec (_touchstartHandler (Q2Qc 10) (Q2Qc 0)) carousel4)
              (Q2Qc 10) (Q2Qc 0) (Q2Qc 40) (Q2Qc 5))
    as (R & L & _).
  - vm_compute. reflexivity.
  - vm_compute. reflexivity.
  - vm_compute. reflexivity.
  - vm_compute. reflexivity.
  - vm_compute. reflexivity.
  - split; [exact R | exact L].
Defined.

(** X21: a mouse drag follows the pointer: after a mouse-down at [x0] and a
    mouse-move to [x1], the applied and cached translation is the translation
    at the time of the mouse-down shifted by [x1 - x0]; CurrentIndex and the
    registry are untouched and the pointer is down. *)
Theorem mouse_drag_follows_pointer (s : Siema) (t x0 x1 : Qc) :
  _currentTranslation s = Num t ->
  result (_mousedownHandler x0;; _mousemoveHandler x1) s = Return tt /\
  _currentTranslation (exec (_mousedownHandler x0;; _mousemoveHandler x1) s)
    = Num (t + (x1 - x0)) /\
  _currentSlide (exec (_mousedownHandler x0;; _mousemoveHandler x1) s)
    = _currentSlide s /\
  _eventRegistry (exec (_mousedownHandler x0;; _mousemoveHandler x1) s)
    = _eventRegistry s /\
  _pointerDown (exec (_mousedownHandler x0;; _mousemoveHandler x1) s) = true /\
  endX (_drag (exec (_mousedownHandler x0;; _mousemoveHandler x1) s))
    = Num x1.
Proof.
  intros T. unfold _mousedownHandler, _mousemoveHandler. run.
  rewrite T. cbn. repeat split; try reflexivity.
  f_equal. ring.
Qed.

(** Witness for X21: a drag from 10 to 35 on the four-item carousel. *)
Lemma mouse_drag_follows_pointer_witness :
  result (_mousedownHandler (Q2Qc 10);; _mousemoveHandler (Q2Qc 35))
    carousel4 = Return tt /\
  _currentTranslation
    (exec (_mousedownHandler (Q2Qc 10);; _mousemoveHandler (Q2Qc 35))
       carousel4) = Num (Q2Qc 0 + (Q2Qc 35 - Q2Qc 10)).
Proof.
  destruct (mouse_drag_follows_pointer carousel4
              (Q2Qc 0) (Q2Qc 10) (Q2Qc 35)) as (R & T & _).
  - vm_compute. reflexivity.
  - split; [exact R | exact T].
Defined.

End Drag.

(** X22: while the pointer is not down, a mouse-move and a mouse-leave
    change nothing: no translation, no resolution, no notification. *)
Theorem mouse_events_ignored_while_pointer_up (s : Siema) (pageX : Qc) :
  _pointerDown s = false ->
  _mousemoveHandler pageX s = (Return tt, s) /\
  _mouseleaveHandler pageX s = (Return tt, s).
Proof.
  intros P. unfold _mousemoveHandler, _mouseleaveHandler.
  rewrite !bind_gets, P. split; reflexivity.
Qed.

(** Witness for X22: the four-item carousel right after construction. *)
Lemma mouse_events_ignored_while_pointer_up_witness :
  _mousemoveHandler (Q2Qc 5) carousel4 = (Return tt, carousel4) /\
  _mouseleaveHandler (Q2Qc 5) carousel4 = (Return tt, carousel4).
Proof.
  apply (mouse_events_ignored_while_pointer_up carousel4 (Q2Qc 5)).
  vm_compute. reflexivity.
Defined.

Section Resize.

Local Open Scope Qc_scope.

(** X23: a resize re-centres the current item on the layout as it then is.
    When CurrentIndex designates a slide, [_resizeHandler] applies and caches
    the centred offset of that slide computed from the new measurements,
    clamped into [[min(0, containerWidth - frameWidth), 0]] when
    [stickToEdges] is set; CurrentIndex and the registry are untouched. *)
Theorem resize_recentres_current_item (s : Siema) (surf : Surface) :
  (0 <= _currentSlide s < length_of (_innerSlides s))%Z ->
  result _resizeHandler (set_surface surf s) = Return tt /\
  _currentTranslation (exec _resizeHandler (set_surface surf s))
    = Num (if stickToEdges (_config s)
           then clamp_into
                  (Qc_min 0 (containerWidth surf
                             - frameWidth surf (_innerSlides s))) 0
                  (centred_offset (containerWidth surf)
                     (map (slideWidth surf) (_innerSlides s))
                     (Z.to_nat (_currentSlide s)))
           else centred_offset (containerWidth surf)
                  (map (slideWidth surf) (_innerSlides s))
                  (Z.to_nat (_currentSlide s))) /\
  _currentSlide (exec _resizeHandler (set_surface surf s)) = _currentSlide s /\
  _eventRegistry (exec _resizeHandler (set_surface surf s))
    = _eventRegistry s.
Proof.
  intros B. unfold _resizeHandler, result, exec.
  rewrite _slideToCurrent_run. cbn [fst snd].
  split; [reflexivity|]. split; [|split; reflexivity].
  cbn [_currentTranslation set_currentTranslation].
  unfold translation_for. rewrite measured_widths_map.
  cbn [set_surface surface _innerSlides _currentSlide _config].
  assert (R : (0 <= _currentSlide s
               < Z.of_nat (length (map (slideWidth surf)
                                     (_innerSlides s))))%Z)
    by (rewrite length_map; exact B).
  destruct (stickToEdges (_config s)).
  - now apply calculateTranslation_clamped.
  - now apply calculateTranslation_unclamped.
Qed.

End Resize.

(** Witness for X23: the four-item carousel in a container narrowed
    to 100. *)
Lemma resize_recentres_current_item_witness :
  result _resizeHandler (set_surface (uniform_surface 100 50) carousel4)
    = Return tt /\
  _currentSlide (exec _resizeHandler
                   (set_surface (uniform_surface 100 50) carousel4))
    = _currentSlide carousel4.
Proof.
  destruct (resize_recentres_current_item carousel4 (uniform_surface 100 50))
    as (R & _ & C & _).
  - vm_compute. split; congruence.
  - split; [exact R | exact C].
Defined.

Lemma _updateAfterDrag_pointer_and_drag (s : Siema) :
  _pointerDown (exec _updateAfterDrag s) = _pointerDown s /\
  _drag (exec _updateAfterDrag s) = _drag s.
Proof.
  unfold exec.
  destruct (_updateAfterDrag_cases s) as [[_ E] | [i [_ E]]]; rewrite E.
  - auto.
  - rewrite _slideToCurrent_run, _setCurrentSlide_run. cbn. auto.
Qed.

Lemma release_tail (t : Siema) (after : M unit) :
  _pointerDown t = false ->
  (forall u, result after u = Return tt /\
             _pointerDown (exec after u) = _pointerDown u /\
             _drag (exec after u) = neutral_drag) ->
  _pointerDown (exec (_updateAfterDrag;; after) t) = false /\
  (result (_updateAfterDrag;; after) t = Return tt ->
   _drag (exec (_updateAfterDrag;; after) t) = neutral_drag).
Proof.
  intros P A.
  destruct (_updateAfterDrag_pointer_and_drag t) as [P' _].
  unfold result, exec, bind in *.
  destruct (_updateAfterDrag t) as [[[] | e] u]; cbn [fst snd] in *.
  - destruct (A u) as (R & Q & D). unfold result, exec in *.
    split; [congruence | intros _; exact D].
  - split; [congruence | discriminate].
Qed.

(** X24: every event that ends a gesture (touch-end, mouse-up, mouse-leave
    while the pointer is down) leaves the pointer flagged as up, also when
    the resolution throws; when the handler returns, the drag record is back
    to its neutral value, ready for the next gesture. *)
Theorem gesture_end_resets_drag (s : Siema) (e : event) :
  ends_gesture e s = true ->
  _pointerDown (exec (handler e) s) = false /\
  (result (handler e) s = Return tt ->
   _drag (exec (handler e) s) = neutral_drag).
Proof.
  intros T. destruct e; cbn [ends_gesture] in T; try discriminate;
    cbn [handler]; unfold result, exec.
  - destruct (truthy (endX (_drag s))) eqn:X.
    + rewrite (_touchendHandler_release s X).
      apply release_tail; [reflexivity|]. intros u. repeat split.
    + unfold _touchendHandler. rewrite bind_modify, bind_gets.
      cbn [_drag set_pointerDown]. rewrite X. cbn. auto.
  - rewrite (_mouseupHandler_release s).
    apply release_tail; [reflexivity|]. intros u. repeat split.
  - rewrite (_mouseleaveHandler_release s pageX T).
    apply release_tail; [reflexivity|]. intros u. repeat split.
Qed.

(** Witness for X24: a mouse-up on the four-item carousel. *)
Lemma gesture_end_resets_drag_witness :
  _pointerDown (exec (handler mouseup) carousel4) = false /\
  (result (handler mouseup) carousel4 = Return tt ->
   _drag (exec (handler mouseup) carousel4) = neutral_drag).
Proof.
  apply (gesture_end_resets_drag carousel4 mouseup). reflexivity.
Defined.


(* ------------------------------------------------------------------ *)
(** ** Publishing to subscribers that may throw *)

Section FullFacts.

Variable b : Callback -> list Z -> option exn.

Lemma forEach_call_thrown_calls (args : list Z) (ls : list Callback) (e : exn) :
  snd (Full.forEach_call b args ls) = Some e ->
  fst (Full.forEach_call b args ls) <> [].
Proof.
  destruct ls as [|l ls]; cbn; [discriminate|].
  destruct (b l args); [intros _; discriminate|].
  destruct (Full.forEach_call b args ls). intros _. discriminate.
Qed.

Lemma Full_setCurrentSlide_run (i : Z) (s : Siema) :
  Full._setCurrentSlide b i s =
  (match first_throw b [i] s with Some e => Throw e | None => Return tt end,
   emit_all (fst (Full.forEach_call b [i] (_listeners (_eventRegistry s))))
     (set_eventRegistry
        {| _listeners := _listeners (_eventRegistry s); _lastArgs := [i] |}
        (set_currentSlide i s))).
Proof.
  unfold Full._setCurrentSlide, Full.eventRegistry_notify, Full.notify,
    first_throw.
  rewrite bind_modify, bind_gets.
  cbn [_currentSlide set_currentSlide _eventRegistry _listeners].
  destruct (Full.forEach_call b [i] (_listeners (_eventRegistry s)))
    as [calls thrown].
  reflexivity.
Qed.

(** A publication during which a subscriber throws has changed the state:
    the call of that subscriber is in the trace. *)
Lemma Full_setCurrentSlide_thrown_changes (i : Z) (s : Siema) (e : exn) :
  first_throw b [i] s = Some e ->
  snd (Full._setCurrentSlide b i s) <> s.
Proof.
  intros T E. rewrite Full_setCurrentSlide_run in E. cbn [snd] in E.
  apply (f_equal trace) in E. cbn in E.
  apply (forEach_call_thrown_calls _ _ _ T).
  apply (f_equal (@length _)) in E. rewrite length_app in E.
  destruct (fst (Full.forEach_call b [i] (_listeners (_eventRegistry s))));
    [reflexivity | cbn in E; lia].
Qed.

Lemma Full_insert_run (s : Siema) (item : Item) (index : Z) :
  Full.insert b item index s =
  if (index <? 0) || (index >? itemCount s + 1)
  then (Throw (Error msg_insert_index), s)
  else if negb (indexOf Nat.eqb (_innerElements s) item =? -1)
  then (Throw (Error msg_insert_same), s)
  else
    match first_throw b [if index <=? _currentSlide s
                         then _currentSlide s + 1 else _currentSlide s] s with
    | Some e =>
        (Throw e,
         snd (Full._setCurrentSlide b
                (if index <=? _currentSlide s
                 then _currentSlide s + 1 else _currentSlide s) s))
    | None =>
        _resetFrameSlides
          (set_innerElements (splice_insert (_innerElements s) index item)
             (snd (Full._setCurrentSlide b
                     (if index <=? _currentSlide s
                      then _currentSlide s + 1 else _currentSlide s) s)))
    end.
Proof.
  unfold Full.insert. rewrite bind_gets. fold (itemCount s).
  destruct ((index <? 0) || (index >? itemCount s + 1)); [reflexivity|].
  rewrite bind_gets.
  destruct (negb (indexOf Nat.eqb (_innerElements s) item =? -1));
    [reflexivity|].
  rewrite bind_gets. unfold bind at 1.
  rewrite Full_setCurrentSlide_run.
  destruct (first_throw b _ s); reflexivity.
Qed.

Lemma Full_remove_run (s : Siema) (index : Z) :
  Full.remove b index s =
  if (index <? 0) || (index >=? itemCount s)
  then (Throw (Error msg_remove), s)
  else
    match first_throw b [if index <=? _currentSlide s
                         then _currentSlide s - 1 else _currentSlide s] s with
    | Some e =>
        (Throw e,
         snd (Full._setCurrentSlide b
                (if index <=? _currentSlide s
                 then _currentSlide s - 1 else _currentSlide s) s))
    | None =>
        _resetFrameSlides
          (set_innerElements (splice_remove1 (_innerElements s) index)
             (snd (Full._setCurrentSlide b
                     (if index <=? _currentSlide s
                      then _currentSlide s - 1 else _currentSlide s) s)))
    end.
Proof.
  unfold Full.remove. rewrite bind_gets. fold (itemCount s).
  destruct ((index <? 0) || (index >=? itemCount s)); [reflexivity|].
  rewrite bind_gets. unfold bind at 1.
  rewrite Full_setCurrentSlide_run.
  destruct (first_throw b _ s); reflexivity.
Qed.

Lemma published_fields (i : Z) (s : Siema) :
  _currentSlide (snd (Full._setCurrentSlide b i s)) = i /\
  _innerElements (snd (Full._setCurrentSlide b i s)) = _innerElements s /\
  _innerSlides (snd (Full._setCurrentSlide b i s)) = _innerSlides s /\
  _lastArgs (_eventRegistry (snd (Full._setCurrentSlide b i s))) = [i] /\
  _listeners (_eventRegistry (snd (Full._setCurrentSlide b i s)))
    = _listeners (_eventRegistry s).
Proof. rewrite Full_setCurrentSlide_run. cbn. auto. Qed.

(** The outcome of [insert] once both of its checks have passed. *)
Lemma Full_insert_accepted (s : Siema) (item : Item) (index : Z) :
  0 <= index <= itemCount s + 1 ->
  ~ In item (_innerElements s) ->
  _currentSlide (exec (Full.insert b item index) s)
    = (if index <=? _currentSlide s
       then _currentSlide s + 1 else _currentSlide s) /\
  match first_throw b [if index <=? _currentSlide s
                       then _currentSlide s + 1 else _currentSlide s] s with
  | None =>
      result (Full.insert b item index) s = Return tt /\
      _innerElements (exec (Full.insert b item index) s)
        = splice_insert (_innerElements s) index item
  | Some e =>
      result (Full.insert b item index) s = Throw e /\
      _innerElements (exec (Full.insert b item index) s) = _innerElements s /\
      exec (Full.insert b item index) s <> s
  end.
Proof.
  intros H N. unfold result, exec. rewrite Full_insert_run.
  destruct ((index <? 0) || (index >? itemCount s + 1)) eqn:E.
  { apply insert_range_test in E. lia. }
  destruct (negb (indexOf Nat.eqb (_innerElements s) item =? -1)) eqn:D.
  { apply insert_same_test in D. contradiction. }
  set (i := if index <=? _currentSlide s
            then _currentSlide s + 1 else _currentSlide s).
  destruct (published_fields i s) as (P1 & P2 & _).
  destruct (first_throw b [i] s) eqn:T; cbn [fst snd].
  - split; [exact P1|]. split; [reflexivity|]. split; [exact P2|].
    now apply Full_setCurrentSlide_thrown_changes with (e := e).
  - match goal with |- context [_resetFrameSlides ?t] =>
      destruct (_resetFrameSlides_state t) as (E1 & _ & E3 & _);
      pose proof (_resetFrameSlides_returns t) as R
    end.
    unfold exec, result in *. rewrite E1, E3, R. cbn. auto.
Qed.

(** The outcome of [remove] once its check has passed. *)
Lemma Full_remove_accepted (s : Siema) (index : Z) :
  0 <= index < itemCount s ->
  _currentSlide (exec (Full.remove b index) s)
    = (if index <=? _currentSlide s
       then _currentSlide s - 1 else _currentSlide s) /\
  match first_throw b [if index <=? _currentSlide s
                       then _currentSlide s - 1 else _currentSlide s] s with
  | None =>
      result (Full.remove b index) s = Return tt /\
      _innerElements (exec (Full.remove b index) s)
        = splice_remove1 (_innerElements s) index
  | Some e =>
      result (Full.remove b index) s = Throw e /\
      _innerElements (exec (Full.remove b index) s) = _innerElements s /\
      exec (Full.remove b index) s <> s
  end.
Proof.
  intros H. unfold result, exec. rewrite Full_remove_run.
  destruct ((index <? 0) || (index >=? itemCount s)) eqn:E.
  { apply remove_range_test in E. lia. }
  set (i := if index <=? _currentSlide s
            then _currentSlide s - 1 else _currentSlide s).
  destruct (published_fields i s) as (P1 & P2 & _).
  destruct (first_throw b [i] s) eqn:T; cbn [fst snd].
  - split; [exact P1|]. split; [reflexivity|]. split; [exact P2|].
    now apply Full_setCurrentSlide_thrown_changes with (e := e).
  - match goal with |- context [_resetFrameSlides ?t] =>
      destruct (_resetFrameSlides_state t) as (E1 & _ & E3 & _);
      pose proof (_resetFrameSlides_returns t) as R
    end.
    unfold exec, result in *. rewrite E1, E3, R. cbn. auto.
Qed.

End FullFacts.

(** C4, as stated, fails when a subscriber throws: on the four-item
    carousel at CurrentIndex 0, with a subscriber that throws on index 1,
    [insert 9 0] has a valid index and a new item, and yet it fails, with the
    subscriber's exception, after CurrentIndex has become 1. *)
Lemma insert_fails_on_subscriber_exception :
  0 <= 0 <= itemCount carousel4_subscribed + 1 /\
  ~ In 9%nat (_innerElements carousel4_subscribed) /\
  result (Full.insert (throws_on_index 1) 9%nat 0) carousel4_subscribed
    = Throw (Error msg_subscriber) /\
  _currentSlide carousel4_subscribed = 0 /\
  _currentSlide
    (exec (Full.insert (throws_on_index 1) 9%nat 0) carousel4_subscribed)
    = 1.
Proof.
  split; [vm_compute; split; congruence|].
  split; [vm_compute; intuition discriminate|].
  repeat split; vm_compute; reflexivity.
Qed.

(** C4 (amended): whatever the subscribers do, [insert item index] is
    rejected with the index error and the state unchanged exactly when the
    index is outside [0, itemCount + 1], and with the same-item error and the
    state unchanged exactly when the index is inside and the item already
    present; [remove index] is rejected with its index error and the state
    unchanged exactly when the index is outside [0, itemCount).  An accepted
    call sets CurrentIndex and publishes it; it returns, with the item set
    changed, when no subscriber throws, and otherwise fails with the
    exception of the first subscriber that throws, the item set not yet
    changed and the state changed. *)
Theorem insert_remove_rejections_and_subscriber_failures
  (b : Callback -> list Z -> option exn)
  (s : Siema) (item : Item) (index : Z) :
  (Full.insert b item index s = (Throw (Error msg_insert_index), s)
     <-> (index < 0 \/ itemCount s + 1 < index)) /\
  (Full.insert b item index s = (Throw (Error msg_insert_same), s)
     <-> (0 <= index <= itemCount s + 1 /\ In item (_innerElements s))) /\
  (0 <= index <= itemCount s + 1 -> ~ In item (_innerElements s) ->
   _currentSlide (exec (Full.insert b item index) s)
     = (if index <=? _currentSlide s
        then _currentSlide s + 1 else _currentSlide s) /\
   match first_throw b [if index <=? _currentSlide s
                        then _currentSlide s + 1 else _currentSlide s] s with
   | None =>
       result (Full.insert b item index) s = Return tt /\
       _innerElements (exec (Full.insert b item index) s)
         = splice_insert (_innerElements s) index item
   | Some e =>
       result (Full.insert b item index) s = Throw e /\
       _innerElements (exec (Full.insert b item index) s) = _innerElements s
   end) /\
  (Full.remove b index s = (Throw (Error msg_remove), s)
     <-> (index < 0 \/ itemCount s <= index)) /\
  (0 <= index < itemCount s ->
   _currentSlide (exec (Full.remove b index) s)
     = (if index <=? _currentSlide s
        then _currentSlide s - 1 else _currentSlide s) /\
   match first_throw b [if index <=? _currentSlide s
                        then _currentSlide s - 1 else _currentSlide s] s with
   | None =>
       result (Full.remove b index) s = Return tt /\
       _innerElements (exec (Full.remove b index) s)
         = splice_remove1 (_innerElements s) index
   | Some e =>
       result (Full.remove b index) s = Throw e /\
       _innerElements (exec (Full.remove b index) s) = _innerElements s
   end).
Proof.
  assert (I : (index < 0 \/ itemCount s + 1 < index)
              \/ (0 <= index <= itemCount s + 1
                  /\ In item (_innerElements s))
              \/ (0 <= index <= itemCount s + 1
                  /\ ~ In item (_innerElements s))).
  { destruct (Z_lt_dec index 0); [left; lia|].
    destruct (Z_lt_dec (itemCount s + 1) index); [left; lia|].
    right.
    destruct (In_dec Nat.eq_dec item (_innerElements s));
      [left | right]; (split; [lia | assumption]). }
  assert (R : (index < 0 \/ itemCount s <= index)
              \/ 0 <= index < itemCount s) by lia.
  assert (Acc : forall e, 0 <= index <= itemCount s + 1 ->
                ~ In item (_innerElements s) ->
                Full.insert b item index s <> (Throw e, s)).
  { intros e H N E.
    destruct (Full_insert_accepted b s item index H N) as [_ A].
    unfold result, exec in A. rewrite E in A. cbn [fst snd] in A.
    destruct (first_throw b _ s); [|destruct A; discriminate].
    destruct A as (_ & _ & A). now apply A. }
  assert (AccR : forall e, 0 <= index < itemCount s ->
                 Full.remove b index s <> (Throw e, s)).
  { intros e H E.
    destruct (Full_remove_accepted b s index H) as [_ A].
    unfold result, exec in A. rewrite E in A. cbn [fst snd] in A.
    destruct (first_throw b _ s); [|destruct A; discriminate].
    destruct A as (_ & _ & A). now apply A. }
  assert (Out : (index < 0 \/ itemCount s + 1 < index) ->
                Full.insert b item index s
                = (Throw (Error msg_insert_index), s)).
  { intros O. rewrite Full_insert_run.
    now rewrite (proj2 (insert_range_test s index) O). }
  assert (Same : 0 <= index <= itemCount s + 1 ->
                 In item (_innerElements s) ->
                 Full.insert b item index s
                 = (Throw (Error msg_insert_same), s)).
  { intros B P. rewrite Full_insert_run.
    destruct ((index <? 0) || (index >? itemCount s + 1)) eqn:T.
    { apply insert_range_test in T. lia. }
    now rewrite (proj2 (insert_same_test s item) P). }
  assert (OutR : (index < 0 \/ itemCount s <= index) ->
                 Full.remove b index s = (Throw (Error msg_remove), s)).
  { intros O. rewrite Full_remove_run.
    now rewrite (proj2 (remove_range_test s index) O). }
  split; [|split; [|split; [|split]]].
  - split; [|exact Out]. intros E.
    destruct I as [O | [[B P] | [B A]]]; [exact O | |].
    + rewrite (Same B P) in E. discriminate.
    + exfalso. exact (Acc _ B A E).
  - split; [|intros [B P]; now apply Same]. intros E.
    destruct I as [O | [[B P] | [B A]]]; [| auto |].
    + rewrite (Out O) in E. discriminate.
    + exfalso. exact (Acc _ B A E).
  - intros B A.
    destruct (Full_insert_accepted b s item index B A) as [C M].
    split; [exact C|].
    destruct (first_throw b _ s); [|exact M].
    destruct M as (M1 & M2 & _). auto.
  - split; [|exact OutR]. intros E.
    destruct R as [O | B]; [exact O|].
    exfalso. exact (AccR _ B E).
  - intros B.
    destruct (Full_remove_accepted b s index B) as [C M].
    split; [exact C|].
    destruct (first_throw b _ s); [|exact M].
    destruct M as (M1 & M2 & _). auto.
Qed.

Section FullRelease.

Variable b : Callback -> list Z -> option exn.

Lemma Full_updateAfterDrag_run (s : Siema) :
  Full._updateAfterDrag b s =
  match closest (_currentTranslation s) (candidate_offsets s) with
  | None => (Throw (TypeError msg_reduce), s)
  | Some c =>
      (Full._setCurrentSlide b (indexOf strict_eqb (candidate_offsets s) c);;
       _slideToCurrent) s
  end.
Proof.
  unfold Full._updateAfterDrag. rewrite bind_gets.
  unfold bind at 1. rewrite mapM_calculate. cbv beta iota.
  rewrite bind_gets. fold (candidate_offsets s).
  destruct (closest (_currentTranslation s) (candidate_offsets s));
    reflexivity.
Qed.

(** The resolution throws on an empty slide list before it publishes
    anything, and otherwise publishes the index of a slide and, if no
    subscriber throws, slides to it. *)
Lemma Full_updateAfterDrag_cases (s : Siema) :
  (_innerSlides s = [] /\
   Full._updateAfterDrag b s = (Throw (TypeError msg_reduce), s)) \/
  (exists i : Z,
     0 <= i <= length_of (_innerSlides s) - 1 /\
     Full._updateAfterDrag b s
     = (Full._setCurrentSlide b i;; _slideToCurrent) s).
Proof.
  rewrite Full_updateAfterDrag_run.
  destruct (candidate_offsets_finite s) as [qs [E L]]. rewrite E.
  destruct qs as [|q qs].
  - left. split; [|reflexivity].
    destruct (_innerSlides s); [reflexivity | discriminate].
  - right. cbn [map closest reduce1].
    pose proof (fold_closer_in (_currentTranslation s) (map Num qs) (Num q))
      as I.
    change (Num q :: map Num qs) with (map Num (q :: qs)) in *.
    apply in_map_iff in I. destruct I as [q' [Eq I]]. rewrite <- Eq.
    eexists. split; [|reflexivity].
    assert (B : 0 <= indexOf_from strict_eqb (Num q') (map Num (q :: qs)) 0
                < 0 + Z.of_nat (length (map Num (q :: qs)))).
    { apply indexOf_from_found. exists (Num q'). split.
      - apply in_map_iff. now exists q'.
      - apply strict_eqb_Num_refl. }
    rewrite length_map, L in B. unfold indexOf, length_of. lia.
Qed.

Lemma publish_then_slide (i : Z) (t : Siema) :
  _currentSlide (exec (Full._setCurrentSlide b i;; _slideToCurrent) t) = i /\
  _lastArgs (_eventRegistry
               (exec (Full._setCurrentSlide b i;; _slideToCurrent) t)) = [i] /\
  _innerSlides (exec (Full._setCurrentSlide b i;; _slideToCurrent) t)
    = _innerSlides t /\
  _innerElements (exec (Full._setCurrentSlide b i;; _slideToCurrent) t)
    = _innerElements t /\
  result (Full._setCurrentSlide b i;; _slideToCurrent) t
    = match first_throw b [i] t with
      | Some x => Throw x
      | None => Return tt
      end.
Proof.
  unfold exec, result, bind. rewrite Full_setCurrentSlide_run.
  destruct (first_throw b [i] t).
  - cbn. auto.
  - rewrite _slideToCurrent_run. cbn. auto.
Qed.

Lemma Full_resolution_outcome (s t : Siema) (after : M unit) :
  _innerSlides t = _innerSlides s ->
  _eventRegistry t = _eventRegistry s ->
  length (_innerSlides s) = length (_innerElements s) ->
  (forall u, result after u = Return tt /\
             _currentSlide (exec after u) = _currentSlide u /\
             _eventRegistry (exec after u) = _eventRegistry u) ->
  if itemCount s =? 0
  then result (Full._updateAfterDrag b;; after) t
       = Throw (TypeError msg_reduce)
  else
    0 <= _currentSlide (exec (Full._updateAfterDrag b;; after) t)
      <= itemCount s - 1 /\
    _lastArgs (_eventRegistry (exec (Full._updateAfterDrag b;; after) t))
      = [_currentSlide (exec (Full._updateAfterDrag b;; after) t)] /\
    result (Full._updateAfterDrag b;; after) t
      = match first_throw b
                [_currentSlide (exec (Full._updateAfterDrag b;; after) t)] s
        with
        | Some x => Throw x
        | None => Return tt
        end.
Proof.
  intros S G W A.
  assert (Q : (Full._updateAfterDrag b;; after) t
              = match Full._updateAfterDrag b t with
                | (Return _, u) => after u
                | (Throw x, u) => (Throw x, u)
                end) by reflexivity.
  unfold result, exec. rewrite Q. clear Q.
  destruct (Full_updateAfterDrag_cases t) as [[Z E] | [i [B E]]]; rewrite E.
  - rewrite S in Z.
    assert (N : itemCount s = 0)
      by (unfold itemCount, length_of; rewrite <- W, Z; reflexivity).
    rewrite N. reflexivity.
  - rewrite S in B. unfold length_of in B. rewrite W in B.
    fold (length_of (_innerElements s)) in B. fold (itemCount s) in B.
    destruct (itemCount s =? 0) eqn:N; [apply Z.eqb_eq in N; lia|].
    destruct (publish_then_slide i t) as (C & L & _ & _ & R).
    assert (F : first_throw b [i] t = first_throw b [i] s)
      by (unfold first_throw; now rewrite G).
    unfold exec, result in *. rewrite F in R.
    destruct ((Full._setCurrentSlide b i;; _slideToCurrent) t)
      as [[[] | x] u]; cbn [fst snd] in *.
    + destruct (A u) as (RA & CA & GA). unfold result, exec in *.
      destruct (after u) as [o v]. cbn [fst snd] in *. subst o.
      rewrite CA, GA, L, C. split; [exact B|]. split; [reflexivity|].
      exact R.
    + rewrite L, C. split; [exact B|]. split; [reflexivity|]. exact R.
Qed.

Lemma Full_touchendHandler_release (s : Siema) :
  truthy (endX (_drag s)) = true ->
  Full._touchendHandler b s =
  (Full._updateAfterDrag b;;
   cfg <- gets _config;;
   _setTransition (duration cfg) (easing cfg);;
   _clearDrag) (set_pointerDown false s).
Proof.
  intros T. unfold Full._touchendHandler.
  rewrite bind_modify, bind_gets. cbn [_drag set_pointerDown].
  rewrite T. reflexivity.
Qed.

Lemma Full_mouseupHandler_release (s : Siema) :
  Full._mouseupHandler b s =
  (Full._updateAfterDrag b;; _clearDrag)
    (emit_all [ApplyTransition (duration (_config s)) (easing (_config s))]
       (emit_all [ApplyCursor GRAB_CURSOR] (set_pointerDown false s))).
Proof. reflexivity. Qed.

Lemma Full_mouseleaveHandler_release (s : Siema) (pageX : Qc) :
  _pointerDown s = true ->
  Full._mouseleaveHandler b pageX s =
  (Full._updateAfterDrag b;; _clearDrag)
    (emit_all [ApplyTransition (duration (_config s)) (easing (_config s))]
       (emit_all [ApplyCursor GRAB_CURSOR]
          (set_drag (with_endX (Num pageX) (_drag s))
             (set_pointerDown false s)))).
Proof.
  intros T. unfold Full._mouseleaveHandler.
  rewrite bind_gets, T. reflexivity.
Qed.

End FullRelease.

(** C10, as stated, fails when a subscriber throws: on the four-item
    carousel, with a subscriber that throws on index 1, a mouse-up triggers
    the resolution, which sets CurrentIndex to the valid index 1 and then does
    not terminate normally: the subscriber's exception leaves the handler. *)
Lemma release_fails_on_subscriber_exception :
  triggers_resolution mouseup carousel4_subscribed = true /\
  itemCount carousel4_subscribed = 4 /\
  result (Full.handler (throws_on_index 1) mouseup) carousel4_subscribed
    = Throw (Error msg_subscriber) /\
  _currentSlide
    (exec (Full.handler (throws_on_index 1) mouseup) carousel4_subscribed)
    = 1.
Proof. repeat split; vm_compute; reflexivity. Qed.

(** C10 (amended): on every drag release that triggers the nearest-slide
    resolution (mouse-up; mouse-leave while the pointer is down; touch-end
    after a recorded horizontal move): with at least one slide the resolution
    sets CurrentIndex to a valid index in [0, itemCount - 1] and publishes it,
    and the handler returns normally unless a subscriber throws during that
    publication, in which case it fails with that subscriber's exception;
    with no slide the reduction over the candidate offsets throws its
    TypeError. *)
Theorem drag_release_resolves_publishes_or_throws
  (b : Callback -> list Z -> option exn) (s : Siema) (e : event) :
  triggers_resolution e s = true ->
  length (_innerSlides s) = length (_innerElements s) ->
  if itemCount s =? 0
  then result (Full.handler b e) s = Throw (TypeError msg_reduce)
  else
    0 <= _currentSlide (exec (Full.handler b e) s) <= itemCount s - 1 /\
    _lastArgs (_eventRegistry (exec (Full.handler b e) s))
      = [_currentSlide (exec (Full.handler b e) s)] /\
    result (Full.handler b e) s
      = match first_throw b [_currentSlide (exec (Full.handler b e) s)] s
        with
        | Some x => Throw x
        | None => Return tt
        end.
Proof.
  intros T W. destruct e; cbn [triggers_resolution] in T; try discriminate;
    cbn [Full.handler]; unfold result, exec.
  - rewrite (Full_touchendHandler_release b s T).
    apply (Full_resolution_outcome b s);
      [reflexivity | reflexivity | exact W | intros u; repeat split].
  - rewrite (Full_mouseupHandler_release b s).
    apply (Full_resolution_outcome b s);
      [reflexivity | reflexivity | exact W | intros u; repeat split].
  - rewrite (Full_mouseleaveHandler_release b s pageX T).
    apply (Full_resolution_outcome b s);
      [reflexivity | reflexivity | exact W | intros u; repeat split].
Qed.

(** Witness for C10 (amended): mouse-up on the four-item carousel whose
    subscriber throws on index 1. *)
Lemma drag_release_resolves_publishes_or_throws_witness :
  0 <= _currentSlide
         (exec (Full.handler (throws_on_index 1) mouseup)
            carousel4_subscribed)
    <= itemCount carousel4_subscribed - 1 /\
  _lastArgs (_eventRegistry
               (exec (Full.handler (throws_on_index 1) mouseup)
                  carousel4_subscribed))
    = [_currentSlide
         (exec (Full.handler (throws_on_index 1) mouseup)
            carousel4_subscribed)] /\
  result (Full.handler (throws_on_index 1) mouseup) carousel4_subscribed
    = match first_throw (throws_on_index 1)
              [_currentSlide
                 (exec (Full.handler (throws_on_index 1) mouseup)
                    carousel4_subscribed)] carousel4_subscribed
      with
      | Some x => Throw x
      | None => Return tt
      end.
Proof.
  apply (drag_release_resolves_publishes_or_throws
           (throws_on_index 1) carousel4_subscribed mouseup).
  - reflexivity.
  - vm_compute. reflexivity.
Defined.

(* ------------------------------------------------------------------ *)
(** ** What every reachable state satisfies, whatever the subscribers do *)

Lemma keeps_ret {A : Type} (a : A) : keeps_coherent (ret a).
Proof. intros s H. exact H. Qed.

Lemma keeps_throw {A : Type} (e : exn) : keeps_coherent (@throw A e).
Proof. intros s H. exact H. Qed.

Lemma keeps_gets {A : Type} (f : Siema -> A) : keeps_coherent (gets f).
Proof. intros s H. exact H. Qed.

Lemma keeps_bind {A B : Type} (m : M A) (k : A -> M B) :
  keeps_coherent m -> (forall a, keeps_coherent (k a)) ->
  keeps_coherent (bind m k).
Proof.
  intros Hm Hk s H. specialize (Hm s H). unfold exec, bind in *.
  destruct (m s) as [[a | e] s']; cbn [snd] in *.
  - apply (Hk a s' Hm).
  - exact Hm.
Qed.

(** The same, when the first computation is known to keep [coherent] from
    the state at hand only. *)
Lemma coherent_bind {A B : Type} (m : M A) (k : A -> M B) (s : Siema) :
  coherent (exec m s) -> (forall a, keeps_coherent (k a)) ->
  coherent (exec (bind m k) s).
Proof.
  intros Hm Hk. unfold exec, bind in *.
  destruct (m s) as [[a | e] s']; cbn [snd] in *.
  - apply (Hk a s' Hm).
  - exact Hm.
Qed.

Lemma keeps_when (c : bool) (m : M unit) :
  keeps_coherent m -> keeps_coherent (when c m).
Proof. intros H. destruct c; [exact H | apply keeps_ret]. Qed.

Lemma keeps_set_pointerDown (c : bool) :
  keeps_coherent (modify (set_pointerDown c)).
Proof. intros s H. exact H. Qed.

Lemma keeps_update_drag (f : Drag -> Drag) : keeps_coherent (update_drag f).
Proof. intros s H. exact H. Qed.

Lemma keeps_set_drag (d : Drag) : keeps_coherent (modify (set_drag d)).
Proof. intros s H. exact H. Qed.

Lemma keeps_emit (e : effect) : keeps_coherent (emit e).
Proof. intros s H. exact H. Qed.

Lemma keeps_set_currentTranslation (x : jsnum) :
  keeps_coherent (modify (set_currentTranslation x)).
Proof. intros s H. exact H. Qed.

Lemma keeps__calculateTranslation (index : Z) (stick : bool) :
  keeps_coherent (_calculateTranslation index stick).
Proof. intros s H. exact H. Qed.

Create HintDb coherent.

#[local] Hint Resolve keeps_ret keeps_throw keeps_gets keeps_when
  keeps_set_pointerDown keeps_update_drag keeps_set_drag keeps_emit
  keeps_set_currentTranslation keeps__calculateTranslation : coherent.

Ltac keeps_steps :=
  repeat first
    [ solve [auto with coherent]
    | apply keeps_when
    | apply keeps_bind; [|intros ?] ].

Lemma keeps__setTranslation (x : jsnum) : keeps_coherent (_setTranslation x).
Proof. unfold _setTranslation. keeps_steps. Qed.

Lemma keeps__setTransition (d : Z) (e : string) :
  keeps_coherent (_setTransition d e).
Proof. unfold _setTransition. keeps_steps. Qed.

Lemma keeps__setCursor (c : cursor) : keeps_coherent (_setCursor c).
Proof. unfold _setCursor. keeps_steps. Qed.

Lemma keeps__clearDrag : keeps_coherent _clearDrag.
Proof. unfold _clearDrag. keeps_steps. Qed.

#[local] Hint Resolve keeps__setTranslation keeps__setTransition
  keeps__setCursor keeps__clearDrag : coherent.

Lemma keeps__slideToCurrent : keeps_coherent _slideToCurrent.
Proof. unfold _slideToCurrent, _slideToIndex. keeps_steps. Qed.

#[local] Hint Resolve keeps__slideToCurrent : coherent.

(** Replacing the elements and rebuilding the frame keeps [coherent]. *)
Lemma keeps_splice_and_reset (f : list Item -> list Item) :
  keeps_coherent
    (modify (fun s => set_innerElements (f (_innerElements s)) s);;
     _resetFrameSlides).
Proof.
  intros s (S & L & B). unfold exec. rewrite bind_modify.
  match goal with |- context [_resetFrameSlides ?t] =>
    destruct (_resetFrameSlides_state t) as (E1 & E2 & E3 & E4 & _)
  end.
  unfold exec in *. repeat split.
  - now rewrite E1, E2.
  - now rewrite E3, E4.
  - now rewrite E3.
Qed.

Section FullCoherent.

Variable b : Callback -> list Z -> option exn.

(** Publishing an index that is at least -1 keeps [coherent], whether a
    subscriber throws or not. *)
Lemma coherent_setCurrentSlide (s : Siema) (i : Z) :
  coherent s -> -1 <= i -> coherent (exec (Full._setCurrentSlide b i) s).
Proof.
  intros (S & _ & _) B. unfold exec. rewrite Full_setCurrentSlide_run.
  repeat split; cbn; auto.
Qed.

Lemma keeps_goTo (index : Z) : keeps_coherent (Full.goTo b index).
Proof.
  intros s H. unfold Full.goTo, exec. rewrite !bind_gets.
  apply coherent_bind.
  - apply coherent_setCurrentSlide; [exact H|].
    unfold clamp. cbn. lia.
  - intros _. keeps_steps.
Qed.

Lemma keeps_moveBy (k : Z) : keeps_coherent (Full.moveBy b k).
Proof.
  intros s H. unfold Full.moveBy, exec. rewrite !bind_gets.
  now apply keeps_goTo.
Qed.

Lemma keeps_insert (item : Item) (index : Z) :
  keeps_coherent (Full.insert b item index).
Proof.
  intros s H. unfold Full.insert, exec. rewrite bind_gets.
  destruct ((index <? 0) || (index >? length_of (_innerElements s) + 1));
    [exact H|].
  rewrite bind_gets.
  destruct (negb (indexOf Nat.eqb (_innerElements s) item =? -1));
    [exact H|].
  rewrite bind_gets. apply coherent_bind.
  - apply coherent_setCurrentSlide; [exact H|].
    destruct H as (_ & _ & B). destruct (index <=? _currentSlide s); lia.
  - intros _.
    apply (keeps_splice_and_reset (fun l => splice_insert l index item)).
Qed.

Lemma keeps_remove (index : Z) : keeps_coherent (Full.remove b index).
Proof.
  intros s H. unfold Full.remove, exec. rewrite bind_gets.
  destruct ((index <? 0) || (index >=? length_of (_innerElements s))) eqn:E;
    [exact H|].
  rewrite bind_gets. apply coherent_bind.
  - apply coherent_setCurrentSlide; [exact H|].
    apply orb_false_iff in E. destruct E as [E _]. apply Z.ltb_ge in E.
    destruct H as (_ & _ & B).
    destruct (index <=? _currentSlide s) eqn:T;
      [apply Z.leb_le in T|]; lia.
  - intros _.
    apply (keeps_splice_and_reset (fun l => splice_remove1 l index)).
Qed.

Lemma keeps_onChange (callback : Callback) :
  keeps_coherent (Full.onChange b callback).
Proof.
  intros s (S & L & B). unfold exec, Full.onChange, Full.listen.
  cbn [_lastArgs].
  destruct (0 <? Z.of_nat (length (_lastArgs (_eventRegistry s))));
    [destruct (b callback (_lastArgs (_eventRegistry s)))|];
    repeat split; cbn; auto.
Qed.

Lemma keeps__updateAfterDrag : keeps_coherent (Full._updateAfterDrag b).
Proof.
  intros s H. unfold exec.
  destruct (Full_updateAfterDrag_cases b s) as [[_ E] | [i [B E]]];
    rewrite E.
  - exact H.
  - apply coherent_bind.
    + apply coherent_setCurrentSlide; [exact H | lia].
    + intros _. apply keeps__slideToCurrent.
Qed.

#[local] Hint Resolve keeps__updateAfterDrag : coherent.

Lemma keeps_handler (e : event) : keeps_coherent (Full.handler b e).
Proof.
  destruct e; cbn [Full.handler handler];
    unfold _resizeHandler, _touchstartHandler, _touchmoveHandler,
      _mousedownHandler, _mousemoveHandler, Full._touchendHandler,
      Full._mouseupHandler, Full._mouseleaveHandler;
    keeps_steps.
Qed.

Lemma keeps_dispatch (e : event) : keeps_coherent (Full.dispatch b e).
Proof.
  unfold Full.dispatch. apply keeps_bind; [apply keeps_gets|]. intros cfg.
  destruct e; try apply keeps_when; apply keeps_handler.
Qed.

Lemma keeps_run_call (c : call) : keeps_coherent (Full.run_call b c).
Proof.
  destruct c; cbn [Full.run_call].
  - apply keeps_goTo.
  - apply keeps_moveBy.
  - apply keeps_moveBy.
  - apply keeps_moveBy.
  - apply keeps_insert.
  - apply keeps_remove.
  - apply keeps_insert.
  - intros s H. unfold Full.append, exec. rewrite bind_gets.
    now apply keeps_insert.
  - apply keeps_bind; [apply keeps_onChange | intros _; apply keeps_ret].
  - apply keeps_dispatch.
Qed.

End FullCoherent.

(** *** Subscribers that return *)

Lemma bind_ext {A B : Type} (m m' : M A) (k k' : A -> M B) :
  (forall s, m s = m' s) -> (forall a s, k a s = k' a s) ->
  forall s, bind m k s = bind m' k' s.
Proof.
  intros Hm Hk s. unfold bind. rewrite Hm.
  destruct (m' s) as [[a | e] s']; [apply Hk | reflexivity].
Qed.

Lemma when_ext (c : bool) (m m' : M unit) :
  (forall s, m s = m' s) -> forall s, when c m s = when c m' s.
Proof. intros H s. destruct c; [apply H | reflexivity]. Qed.

Section Quiet.

Variable b : Callback -> list Z -> option exn.

Hypothesis quiet : forall l args, b l args = None.

Lemma forEach_call_quiet (args : list Z) (ls : list Callback) :
  Full.forEach_call b args ls = (map (fun l => Deliver l args) ls, None).
Proof.
  induction ls as [|l ls IH]; [reflexivity|].
  cbn [Full.forEach_call map]. now rewrite quiet, IH.
Qed.

Lemma eventRegistry_notify_quiet (args : list Z) (s : Siema) :
  Full.eventRegistry_notify b args s = eventRegistry_notify args s.
Proof.
  unfold Full.eventRegistry_notify, Full.notify. cbn [_listeners].
  rewrite forEach_call_quiet. reflexivity.
Qed.

Lemma onChange_quiet (callback : Callback) (s : Siema) :
  Full.onChange b callback s = onChange callback s.
Proof.
  unfold Full.onChange, onChange, Full.listen, Registry.listen.
  cbn [_lastArgs]. rewrite quiet.
  destruct (0 <? Z.of_nat (length (_lastArgs (_eventRegistry s))));
    reflexivity.
Qed.

Lemma _setCurrentSlide_quiet (i : Z) (s : Siema) :
  Full._setCurrentSlide b i s = _setCurrentSlide i s.
Proof.
  unfold Full._setCurrentSlide, _setCurrentSlide.
  apply bind_ext; [reflexivity|]. intros _.
  apply bind_ext; [reflexivity|]. intros cs.
  apply eventRegistry_notify_quiet.
Qed.

Lemma goTo_quiet (index : Z) (s : Siema) :
  Full.goTo b index s = goTo index s.
Proof.
  unfold Full.goTo, goTo.
  apply bind_ext; [reflexivity|]. intros before.
  apply bind_ext; [reflexivity|]. intros n.
  apply bind_ext; [apply _setCurrentSlide_quiet | reflexivity].
Qed.

Lemma moveBy_quiet (k : Z) (s : Siema) :
  Full.moveBy b k s = moveBy k s.
Proof.
  unfold Full.moveBy, moveBy.
  apply bind_ext; [reflexivity|]. intros cs.
  apply bind_ext; [reflexivity|]. intros n. apply goTo_quiet.
Qed.

Lemma insert_quiet (item : Item) (index : Z) (s : Siema) :
  Full.insert b item index s = insert item index s.
Proof.
  unfold Full.insert, insert.
  apply bind_ext; [reflexivity|]. intros n t.
  destruct ((index <? 0) || (index >? n + 1)); [reflexivity|].
  apply bind_ext; [reflexivity|]. intros elements u.
  destruct (negb (indexOf Nat.eqb elements item =? -1)); [reflexivity|].
  apply bind_ext; [reflexivity|]. intros cs.
  apply bind_ext; [apply _setCurrentSlide_quiet | reflexivity].
Qed.

Lemma remove_quiet (index : Z) (s : Siema) :
  Full.remove b index s = remove index s.
Proof.
  unfold Full.remove, remove.
  apply bind_ext; [reflexivity|]. intros n t.
  destruct ((index <? 0) || (index >=? n)); [reflexivity|].
  apply bind_ext; [reflexivity|]. intros cs.
  apply bind_ext; [apply _setCurrentSlide_quiet | reflexivity].
Qed.

Lemma _updateAfterDrag_quiet (s : Siema) :
  Full._updateAfterDrag b s = _updateAfterDrag s.
Proof.
  unfold Full._updateAfterDrag, _updateAfterDrag.
  apply bind_ext; [reflexivity|]. intros slides.
  apply bind_ext; [reflexivity|]. intros translations.
  apply bind_ext; [reflexivity|]. intros current t.
  destruct (closest current translations); [|reflexivity].
  apply bind_ext; [apply _setCurrentSlide_quiet | reflexivity].
Qed.

Lemma handler_quiet (e : event) (s : Siema) :
  Full.handler b e s = handler e s.
Proof.
  destruct e; cbn [Full.handler handler]; try reflexivity.
  - unfold Full._touchendHandler, _touchendHandler.
    apply bind_ext; [reflexivity|]. intros _.
    apply bind_ext; [reflexivity|]. intros d.
    apply bind_ext; [|reflexivity].
    apply when_ext, _updateAfterDrag_quiet.
  - unfold Full._mouseupHandler, _mouseupHandler.
    apply bind_ext; [reflexivity|]. intros _.
    apply bind_ext; [reflexivity|]. intros _.
    apply bind_ext; [reflexivity|]. intros cfg.
    apply bind_ext; [reflexivity|]. intros _.
    apply bind_ext; [apply _updateAfterDrag_quiet | reflexivity].
  - unfold Full._mouseleaveHandler, _mouseleaveHandler.
    apply bind_ext; [reflexivity|]. intros down.
    apply when_ext.
    apply bind_ext; [reflexivity|]. intros _.
    apply bind_ext; [reflexivity|]. intros _.
    apply bind_ext; [reflexivity|]. intros _.
    apply bind_ext; [reflexivity|]. intros cfg.
    apply bind_ext; [reflexivity|]. intros _.
    apply bind_ext; [apply _updateAfterDrag_quiet | reflexivity].
Qed.

Lemma dispatch_quiet (e : event) (s : Siema) :
  Full.dispatch b e s = dispatch e s.
Proof.
  unfold Full.dispatch, dispatch.
  apply bind_ext; [reflexivity|]. intros cfg.
  destruct e; try apply when_ext; apply handler_quiet.
Qed.

(** With subscribers that return, the methods of [Full] are the methods
    defined first. *)
Lemma run_call_quiet (c : call) (s : Siema) :
  Full.run_call b c s = run_call c s.
Proof.
  destruct c; cbn [Full.run_call run_call].
  - apply goTo_quiet.
  - apply moveBy_quiet.
  - apply moveBy_quiet.
  - apply moveBy_quiet.
  - apply insert_quiet.
  - apply remove_quiet.
  - apply insert_quiet.
  - unfold Full.append, append.
    apply bind_ext; [reflexivity|]. intros n. apply insert_quiet.
  - apply bind_ext; [apply onChange_quiet | reflexivity].
  - apply dispatch_quiet.
Qed.

End Quiet.

Lemma reachable_with_quiet
  (allowed : (Callback -> list Z -> option exn) -> Prop) (s : Siema) :
  (forall b, allowed b -> forall l args, b l args = None) ->
  reachable_with allowed s -> reachable s.
Proof.
  intros Q.
  induction 1 as [document options selector surf s K | b s c A _ IH
                 | s surf _ IH].
  - destruct selector as [|query|children|]; cbn [new_Siema] in K.
    + discriminate.
    + destruct (document query) as [children|] eqn:D; [|discriminate].
      now apply (reachable_new options children surf).
    + now apply (reachable_new options children surf).
    + discriminate.
  - unfold exec. rewrite (run_call_quiet b (Q b A)). now apply reachable_call.
  - now apply reachable_layout.
Qed.

Lemma new_Siema_coherent (document : string -> option (list Item))
  (options : Options) (selector : selector_setting) (surf : Surface)
  (s : Siema) :
  new_Siema document options selector surf = Return s -> coherent s.
Proof.
  intros K.
  assert (R : reachable s).
  { destruct selector as [|query|children|]; cbn [new_Siema] in K.
    + discriminate.
    + destruct (document query) as [children|] eqn:D; [|discriminate].
      now apply (reachable_new options children surf).
    + now apply (reachable_new options children surf).
    + discriminate. }
  destruct (reachable_states_are_consistent s R) as (S & L & B).
  repeat split; auto; lia.
Qed.



(** The upper bound is lost when a subscriber throws: on the four-item
    carousel whose subscriber throws on every index from 1 on, five [insert]
    calls at index 0 all fail after raising CurrentIndex, which ends at 5 with
    four items. *)
Lemma failed_inserts_raise_the_index :
  _currentSlide
    (exec (Full.insert (throws_from 1) 9%nat 0;;
           Full.insert (throws_from 1) 9%nat 0) carousel4_subscribed)
    = 1 /\
  _currentSlide
    (exec (Full.insert (throws_from 1) 9%nat 0)
       (exec (Full.insert (throws_from 1) 9%nat 0)
          (exec (Full.insert (throws_from 1) 9%nat 0)
             (exec (Full.insert (throws_from 1) 9%nat 0)
                (exec (Full.insert (throws_from 1) 9%nat 0)
                   carousel4_subscribed)))))
    = 5 /\
  itemCount
    (exec (Full.insert (throws_from 1) 9%nat 0)
       (exec (Full.insert (throws_from 1) 9%nat 0)
          (exec (Full.insert (throws_from 1) 9%nat 0)
             (exec (Full.insert (throws_from 1) 9%nat 0)
                (exec (Full.insert (throws_from 1) 9%nat 0)
                   carousel4_subscribed)))))
    = 4.
Proof. repeat split; vm_compute; reflexivity. Qed.

(* ------------------------------------------------------------------ *)
(** ** Construction *)

(** X25: [new Siema(options)].  With the selector left out (the default) the
    constructor throws a TypeError on the read of the selector's children;
    with a [null] selector, or a query that matches nothing, it throws the
    selector error; a query that matches an element behaves as that element.
    On an element it returns an instance whose settings are the defaults
    overridden by the options given, whose elements and slides are the
    element's children, with CurrentIndex 0 cached for late subscribers in a
    registry without listeners, the translation of item 0 applied and
    cached, nothing delivered, and, when the instance is draggable, the
    pointer flagged up and the initial drag record. *)
Theorem new_Siema_outcome
  (document : string -> option (list Item)) (options : Options)
  (surf : Surface) (query : string) (children : list Item) :
  new_Siema document options selector_undefined surf
    = Throw (TypeError msg_children) /\
  new_Siema document options selector_null surf
    = Throw (Error msg_selector) /\
  (document query = None ->
   new_Siema document options (selector_query query) surf
     = Throw (Error msg_selector)) /\
  (document query = Some children ->
   new_Siema document options (selector_query query) surf
     = new_Siema document options (selector_element children) surf) /\
  exists s : Siema,
    new_Siema document options (selector_element children) surf = Return s /\
    _config s = mergeSettings options /\
    _innerElements s = children /\
    _innerSlides s = children /\
    _currentSlide s = 0 /\
    _eventRegistry s = {| _listeners := []; _lastArgs := [0] |} /\
    _currentTranslation s
      = translation_for s 0 (stickToEdges (mergeSettings options)) /\
    delivered (trace s) = [] /\
    (draggable (mergeSettings options) = true ->
     _pointerDown s = false /\ _drag s = initial_drag).
Proof.
  split; [reflexivity|]. split; [reflexivity|].
  split; [intros D; cbn [new_Siema]; now rewrite D|].
  split; [intros D; cbn [new_Siema]; now rewrite D|].
  exists (exec constructor_body (blank_instance options children surf)).
  cbn [new_Siema].
  unfold constructor, exec, constructor_body, _resetFrameSlides,
    _attachEvents.
  run.
  destruct (or_default (o_draggable options) true) eqn:D;
    cbn; rewrite ?D; cbn; rewrite ?map_id; repeat split;
    try reflexivity; discriminate.
Qed.
